(** * The clinical-coordination canister (dfinity_js_backend/src/index.ts)

    A shallow embedding of the azle canister: five stable B-tree maps
    (Departments, Doctors, Patients, Consultations, Chats) and the query and
    update methods defined over them.

    JavaScript objects are finite maps from field names to values, so that
    object spread is map union.  The Candid record types that the source
    declares with [Record({...})] are field lists; azle serialises every
    method argument, every method result and every value put into a
    [StableBTreeMap] with the declared record type, which checks the declared
    fields and keeps nothing else; a value that fails the check makes the
    call trap.

    Text is modelled by its UTF-8 bytes; for well-formed text one string
    occurs in another as bytes exactly when it does as UTF-16 code units,
    which is what [includes] tests.  A [StableBTreeMap] keeps its entries in
    the order of their serialised keys, and [values()] lists them in that
    order.  [String.prototype.toLowerCase] is the engine's: it is a parameter
    of the development, known on ASCII text. *)

From stdpp Require Import gmap strings list fin_maps pretty sorting.

Local Open Scope string_scope.

(** ** Values and Candid types *)

(** A principal is observed by the source only through [toText()]. *)
Record Principal := mkPrincipal { toText : string }.

Inductive value :=
| VText (s : string)
| VPrincipal (p : Principal)
| VNat64 (n : N)
| VBool (b : bool).

#[global] Instance Principal_eq_dec : EqDecision Principal.
Proof. solve_decision. Defined.

#[global] Instance value_eq_dec : EqDecision value.
Proof. solve_decision. Defined.

Module Candid.
Inductive type := text | Principal | nat64 | bool.
End Candid.

#[global] Instance Candid_type_eq_dec : EqDecision Candid.type.
Proof. solve_decision. Defined.

(** [Record({ f1: t1, ... })] *)
Abbreviation RecordType := (list (string * Candid.type)).

(** A JavaScript object: own properties by name. *)
Abbreviation obj := (gmap string value).

Definition has_type (t : Candid.type) (v : value) : bool :=
  match t, v with
  | Candid.text, VText _ => true
  | Candid.Principal, VPrincipal _ => true
  | Candid.nat64, VNat64 n => bool_decide (n < 2 ^ 64)%N
  | Candid.bool, VBool _ => true
  | _, _ => false
  end.

Definition field_ok (o : obj) (f : string * Candid.type) : bool :=
  match o !! f.1 with
  | Some v => has_type f.2 v
  | None => false
  end.

(** Serialising an object with a record type: every declared field must be
    present with a value of its type; properties that the type does not
    declare are not written. *)
Definition declared (T : RecordType) (o : obj) : obj :=
  filter (λ kv, kv.1 ∈ T.*1) o.

Definition encode (T : RecordType) (o : obj) : option obj :=
  if forallb (field_ok o) T then Some (declared T o) else None.

(** Reading a Candid record at a declared type: a declared field that is
    missing or ill-typed makes the decoding fail (no declared field here is
    optional), and fields that the type does not declare are skipped. *)
Definition decode (T : RecordType) (o : obj) : option obj := encode T o.

(** ** The declared record types *)

Definition Department : RecordType :=
  [("id", Candid.text); ("name", Candid.text)].

Definition Doctor : RecordType :=
  [("id", Candid.text); ("owner", Candid.Principal); ("name", Candid.text);
   ("department_id", Candid.text); ("image", Candid.text)].

Definition Patient : RecordType :=
  [("id", Candid.text); ("owner", Candid.Principal); ("name", Candid.text);
   ("age", Candid.nat64)].

Definition Consultation : RecordType :=
  [("id", Candid.text); ("patient_id", Candid.text); ("problem", Candid.text);
   ("department_id", Candid.text)].

Definition Chat : RecordType :=
  [("id", Candid.text); ("patient_id", Candid.text); ("doctor_id", Candid.text);
   ("message", Candid.text); ("timestamp", Candid.text)].

Inductive Message :=
| Success (s : string)
| Error (s : string)
| NotFound (s : string)
| InvalidPayload (s : string)
| PaymentFailed (s : string)
| PaymentCompleted (s : string).

Definition CreateDepartmentPayload : RecordType := [("name", Candid.text)].

Definition CreateDoctorPayload : RecordType :=
  [("name", Candid.text); ("department_id", Candid.text); ("image", Candid.text)].

Definition CreatePatientPayload : RecordType :=
  [("name", Candid.text); ("age", Candid.nat64)].

Definition CreateConsultationPayload : RecordType :=
  [("patient_id", Candid.text); ("problem", Candid.text);
   ("department_id", Candid.text)].

Definition CreateChatPayload : RecordType :=
  [("patient_id", Candid.text); ("doctor_id", Candid.text);
   ("message", Candid.text); ("timestamp", Candid.text)].

(** ** Storage *)

(** [StableBTreeMap(memoryId, text, valueType)] *)
Record StableBTreeMap := mkMap { memoryId : nat; valueType : RecordType }.

Definition Departments := mkMap 0 Department.
Definition Doctors := mkMap 1 Doctor.
Definition Patients := mkMap 2 Patient.
Definition Consultations := mkMap 3 Consultation.
Definition Chats := mkMap 4 Chat.

(** Stable memory: the contents of each map, by memory id. *)
Abbreviation State := (gmap nat (gmap string obj)).

Definition contents (m : StableBTreeMap) (st : State) : gmap string obj :=
  default ∅ (st !! memoryId m).

(** The bytes of a text. *)
Fixpoint utf8 (s : string) : list N :=
  match s with
  | EmptyString => []
  | String c s' => Ascii.N_of_ascii c :: utf8 s'
  end.

(** Unsigned LEB128, least significant group first. *)
Fixpoint leb128_groups (fuel : nat) (n : N) : list N :=
  match fuel with
  | O => []
  | S fuel' =>
      if (n <? 128)%N then [n]
      else (128 + n mod 128)%N :: leb128_groups fuel' (n / 128)%N
  end.

Definition leb128 (n : N) : list N := leb128_groups (S (N.to_nat n)) n.

(** The first number of a sequence of groups ends with its first group
    below 128. *)
Fixpoint first_number (l : list N) : list N :=
  match l with
  | [] => []
  | b :: l' => if (b <? 128)%N then [b] else b :: first_number l'
  end.

(** The number that a sequence of groups stands for. *)
Fixpoint unleb128 (l : list N) : N :=
  match l with
  | [] => 0
  | b :: l' => if (b <? 128)%N then b else (b - 128 + 128 * unleb128 l')%N
  end.

(** A key as the map stores it: the Candid serialisation of a [text]
    (magic number [DIDL], empty type table, one argument of type [text],
    then the length and the bytes). *)
Definition toBytes (k : string) : list N :=
  ([68; 73; 68; 76; 0; 1; 113]%N ++
   leb128 (N.of_nat (length (utf8 k))) ++ utf8 k)%list.

(** The order of the B-tree: serialised keys compared byte by byte, a proper
    prefix coming first. *)
Fixpoint bytes_leb (a b : list N) : bool :=
  match a, b with
  | [], _ => true
  | _ :: _, [] => false
  | x :: a', y :: b' => (x <? y)%N || ((x =? y)%N && bytes_leb a' b')
  end.

Definition key_le (k k' : string) : Prop :=
  bytes_leb (toBytes k) (toBytes k') = true.

#[global] Instance key_le_dec : RelDecision key_le.
Proof. intros k k'. unfold key_le. apply _. Defined.

Definition entry_le (x y : string * obj) : Prop := key_le x.1 y.1.

#[global] Instance entry_le_dec : RelDecision entry_le.
Proof. intros x y. unfold entry_le. apply _. Defined.

(** The entries of a map, in the order of the B-tree. *)
Definition items (m : StableBTreeMap) (st : State) : list (string * obj) :=
  merge_sort entry_le (map_to_list (contents m st)).

(** The stored values, as [values()] lists them. *)
Definition stored (m : StableBTreeMap) (st : State) : list obj :=
  (items m st).*2.

(** ** Calls *)

(** What a call reads from its surroundings: the caller's identity and the
    identifier that [uuidv4()] hands out. *)
Record Env := mkEnv { caller : Principal; uuid : string }.

(** A computation reads the environment, threads the stable memory, and may
    trap ([None]); a trapped call leaves no result and no state change. *)
Definition M (A : Type) : Type := Env → State → option (A * State).

Definition ret {A} (a : A) : M A := λ _ st, Some (a, st).

Definition bind {A B} (c : M A) (k : A → M B) : M B :=
  λ env st,
    match c env st with
    | Some (a, st') => k a env st'
    | None => None
    end.

Definition lift {A} (o : option A) : M A :=
  λ _ st, match o with Some a => Some (a, st) | None => None end.

Declare Scope canister_scope.
Delimit Scope canister_scope with M.
Notation "'let*' x ':=' c 'in' k" := (bind c (λ x, k))
  (at level 10, x name, c at level 100, k at level 200) : canister_scope.
Notation "c ';;;' k" := (bind c (λ _, k))
  (at level 100, k at level 200, right associativity) : canister_scope.

Definition ic_caller : M Principal := λ env st, Some (caller env, st).
Definition uuidv4 : M string := λ env st, Some (uuid env, st).

(** The operations of a [StableBTreeMap].  [insert] serialises the value
    with the map's value type and traps when that fails; [get] and [values]
    give back what was written, and [remove] takes the key out. *)
Module Stable.

Definition get (m : StableBTreeMap) (k : string) : M (option obj) :=
  λ _ st, Some (contents m st !! k, st).

Definition insert (m : StableBTreeMap) (k : string) (v : obj) : M unit :=
  λ _ st,
    match encode (valueType m) v with
    | Some v' => Some (tt, <[memoryId m := <[k := v']> (contents m st)]> st)
    | None => None
    end.

Definition remove (m : StableBTreeMap) (k : string) : M unit :=
  λ _ st, Some (tt, <[memoryId m := delete k (contents m st)]> st).

Definition values (m : StableBTreeMap) : M (list obj) :=
  λ _ st, Some (stored m st, st).

End Stable.

(** ** Results and the method wrappers *)

Inductive Result (A : Type) :=
| Ok (a : A)
| Err (e : Message).
Arguments Ok {A} a.
Arguments Err {A} e.

#[global] Instance Message_eq_dec : EqDecision Message.
Proof. solve_decision. Defined.

#[global] Instance Result_eq_dec `{EqDecision A} : EqDecision (Result A).
Proof. solve_decision. Defined.

(** [Result(T, Message)] as a return type: the [Ok] payload is serialised
    with [T]. *)
Definition ResultOf {A} (T : A → option A) (r : Result A) : option (Result A) :=
  match r with
  | Ok a => Ok <$> T a
  | Err e => Some (Err e)
  end.

Definition Vec (T : RecordType) (l : list obj) : option (list obj) :=
  mapM (encode T) l.

Definition MessageT (m : Message) : option Message := Some m.

(** [update([...], R, body)]: the reply is serialised with [R]. *)
Definition update {A} (R : A → option A) (body : M A) : M A :=
  λ env st,
    match body env st with
    | Some (r, st') =>
        match R r with Some r' => Some (r', st') | None => None end
    | None => None
    end.

(** [query([...], R, body)]: as [update], but state changes are discarded. *)
Definition query {A} (R : A → option A) (body : M A) : M A :=
  λ env st,
    match body env st with
    | Some (r, _) =>
        match R r with Some r' => Some (r', st) | None => None end
    | None => None
    end.

(** A record parameter, as [update([..., T], ...)] declares it: azle decodes
    the argument at [T] before the body runs, and the call traps when the
    decoding fails. *)
Definition param (T : RecordType) (raw : obj) : M obj := lift (decode T raw).

(** ** JavaScript expressions used by the method bodies *)

(** [!x] *)
Definition falsy (x : option value) : bool :=
  match x with
  | None => true
  | Some (VText s) => bool_decide (s = "")
  | Some (VNat64 n) => bool_decide (n = 0%N)
  | Some (VBool b) => negb b
  | Some (VPrincipal _) => false
  end.

(** [a === b] on property reads; two principals are distinct objects. *)
Definition strict_eq (a b : option value) : bool :=
  match a, b with
  | None, None => true
  | Some (VText s), Some (VText t) => bool_decide (s = t)
  | Some (VNat64 n), Some (VNat64 m) => bool_decide (n = m)
  | Some (VBool x), Some (VBool y) => bool_decide (x = y)
  | _, _ => false
  end.

(** [{ ...a, ...b }]: properties of [b] win. *)
Definition spread (a b : obj) : obj := b ∪ a.

(** Method calls on a property read throw a TypeError ([None]) when the
    property is undefined or its value has no such method. *)
Definition call_toString (x : option value) : option string :=
  match x with
  | Some (VText s) => Some s
  | Some (VPrincipal p) => Some (toText p)
  | Some (VNat64 n) => Some (pretty n)
  | Some (VBool b) => Some (if b then "true" else "false")
  | None => None
  end.

Definition call_toText (x : option value) : option string :=
  match x with
  | Some (VPrincipal p) => Some (toText p)
  | _ => None
  end.

(** Lower-casing of ASCII text: the letters [A] to [Z] go to [a] to [z], and
    every other character stays. *)
Definition lower (c : Ascii.ascii) : Ascii.ascii :=
  let n := Ascii.nat_of_ascii c in
  if (65 <=? n)%nat && (n <=? 90)%nat then Ascii.ascii_of_nat (n + 32) else c.

Fixpoint ascii_lower (s : string) : string :=
  match s with
  | EmptyString => EmptyString
  | String c s' => String (lower c) (ascii_lower s')
  end.

Fixpoint is_ascii (s : string) : bool :=
  match s with
  | EmptyString => true
  | String c s' => (Ascii.nat_of_ascii c <? 128)%nat && is_ascii s'
  end.

(** [String.prototype.toLowerCase], the case mapping of Unicode as the
    engine implements it.  It acts on whole strings (the mapping of a
    character may depend on its neighbours and may change the length), and
    nothing is assumed of it but what it does on ASCII text. *)
Class Unicode := {
  toLowerCase : string → string;
  toLowerCase_ascii s : is_ascii s = true → toLowerCase s = ascii_lower s
}.

(** An engine that leaves every text outside ASCII as it is; it serves for
    running the methods on concrete data. *)
Definition ascii_engine : Unicode :=
  {| toLowerCase s := if is_ascii s then ascii_lower s else s;
     toLowerCase_ascii s H :=
       @eq_ind_r bool true
         (λ b : bool, (if b then ascii_lower s else s) = ascii_lower s)
         eq_refl (is_ascii s) H |}.

Definition call_toLowerCase {U : Unicode} (x : option value) : option string :=
  match x with
  | Some (VText s) => Some (toLowerCase s)
  | _ => None
  end.

(** [t.startsWith]-style test: is [t] an initial segment of [s]? *)
Fixpoint starts_with (t s : string) : bool :=
  match t, s with
  | EmptyString, _ => true
  | String a t', String b s' => bool_decide (a = b) && starts_with t' s'
  | String _ _, EmptyString => false
  end.

(** [s.includes(t)] *)
Fixpoint includes (s t : string) : bool :=
  starts_with t s ||
  match s with
  | EmptyString => false
  | String _ s' => includes s' t
  end.

(** [l.some(f)] and [l.filter(f)] with a callback that may throw. *)
Fixpoint Array_some {A} (f : A → option bool) (l : list A) : option bool :=
  match l with
  | [] => Some false
  | x :: l' =>
      match f x with
      | Some true => Some true
      | Some false => Array_some f l'
      | None => None
      end
  end.

Fixpoint Array_filter {A} (f : A → option bool) (l : list A) : option (list A) :=
  match l with
  | [] => Some []
  | x :: l' =>
      match f x, Array_filter f l' with
      | Some b, Some r => Some (if b then x :: r else r)
      | _, _ => None
      end
  end.

(** [a && b] where evaluating [b] may throw. *)
Definition and_then (a : bool) (b : option bool) : option bool :=
  if a then b else Some false.

(** The callback of the uniqueness scan in [createDoctor]:
    [profile.name === payload.name &&
     profile.department_id === payload.department_id.toString()]. *)
Definition same_name_and_department (payload profile : obj) : option bool :=
  and_then (strict_eq (profile !! "name") (payload !! "name"))
    (s ← call_toString (payload !! "department_id");
     Some (strict_eq (profile !! "department_id") (Some (VText s)))).

(** The callback of both owner lookups:
    [x.owner.toText() === ic.caller().toText()]. *)
Definition owner_is (me : Principal) (x : obj) : option bool :=
  t ← call_toText (x !! "owner");
  Some (bool_decide (t = toText me)).

Local Open Scope canister_scope.

(** ** Departments *)

Definition createDepartment (payload : obj) : M (Result obj) :=
  update (ResultOf (encode Department))
    (let* payload := param CreateDepartmentPayload payload in
     if falsy (payload !! "name")
     then ret (Err (InvalidPayload "Missing required fields"))
     else
       let* departmentId := uuidv4 in
       let department := spread {[ "id" := VText departmentId ]} payload in
       Stable.insert Departments departmentId department;;;
       ret (Ok department)).

Definition getDepartmentById (departmentId : string) : M (Result obj) :=
  query (ResultOf (encode Department))
    (let* departmentOpt := Stable.get Departments departmentId in
     match departmentOpt with
     | None =>
         ret (Err (NotFound
           ("Department with id=" +:+ departmentId +:+ " not found")))
     | Some department => ret (Ok department)
     end).

Definition getAllDepartments : M (Result (list obj)) :=
  query (ResultOf (Vec Department))
    (let* departments := Stable.values Departments in
     if bool_decide (length departments = 0)
     then ret (Err (NotFound "No departments found"))
     else ret (Ok departments)).

(** ** Doctors *)

Definition createDoctor (payload : obj) : M (Result obj) :=
  update (ResultOf (encode Doctor))
    (let* payload := param CreateDoctorPayload payload in
     if falsy (payload !! "name") || falsy (payload !! "department_id")
        || falsy (payload !! "image")
     then ret (Err (InvalidPayload "Missing required fields"))
     else
       let* doctorProfiles := Stable.values Doctors in
       let* nameExists :=
         lift (Array_some (same_name_and_department payload) doctorProfiles) in
       if nameExists
       then ret (Err (InvalidPayload
              "Doctor with this name already exists in the department"))
       else
         let* doctorId := uuidv4 in
         let* owner := ic_caller in
         let doctor :=
           <["owner" := VPrincipal owner]>
             (spread {[ "id" := VText doctorId ]} payload) in
         Stable.insert Doctors doctorId doctor;;;
         ret (Ok doctor)).

Definition getDoctorById (doctorId : string) : M (Result obj) :=
  query (ResultOf (encode Doctor))
    (let* doctorOpt := Stable.get Doctors doctorId in
     match doctorOpt with
     | None =>
         ret (Err (NotFound ("Doctor with id=" +:+ doctorId +:+ " not found")))
     | Some doctor => ret (Ok doctor)
     end).

Definition getDoctorByOwner : M (Result obj) :=
  query (ResultOf (encode Doctor))
    (let* all := Stable.values Doctors in
     let* me := ic_caller in
     let* doctorProfiles := lift (Array_filter (owner_is me) all) in
     match doctorProfiles with
     | [] =>
         ret (Err (NotFound
           ("Doctor profile for owner=" +:+ toText me +:+ " not found")))
     | first :: _ => ret (Ok first)
     end).

Definition getAllDoctors : M (Result (list obj)) :=
  query (ResultOf (Vec Doctor))
    (let* doctors := Stable.values Doctors in
     if bool_decide (length doctors = 0)
     then ret (Err (NotFound "No doctors found"))
     else ret (Ok doctors)).

(** ** Patients *)

Definition createPatient (payload : obj) : M (Result obj) :=
  update (ResultOf (encode Patient))
    (let* payload := param CreatePatientPayload payload in
     if falsy (payload !! "name") || bool_decide (payload !! "age" = None)
     then ret (Err (InvalidPayload "Missing required fields"))
     else
       let* patientId := uuidv4 in
       let* owner := ic_caller in
       let patient :=
         <["owner" := VPrincipal owner]> (<["id" := VText patientId]> payload) in
       Stable.insert Patients patientId patient;;;
       ret (Ok patient)).

Definition getPatientById (patientId : string) : M (Result obj) :=
  query (ResultOf (encode Patient))
    (let* patientOpt := Stable.get Patients patientId in
     match patientOpt with
     | None =>
         ret (Err (NotFound ("Patient with id=" +:+ patientId +:+ " not found")))
     | Some patient => ret (Ok patient)
     end).

Definition getPatientByOwner : M (Result obj) :=
  query (ResultOf (encode Patient))
    (let* all := Stable.values Patients in
     let* me := ic_caller in
     let* patientProfiles := lift (Array_filter (owner_is me) all) in
     match patientProfiles with
     | [] =>
         ret (Err (NotFound
           ("Patient profile for owner=" +:+ toText me +:+ " not found")))
     | first :: _ => ret (Ok first)
     end).

Definition getAllPatients : M (Result (list obj)) :=
  query (ResultOf (Vec Patient))
    (let* patients := Stable.values Patients in
     if bool_decide (length patients = 0)
     then ret (Err (NotFound "No patients found"))
     else ret (Ok patients)).

(** ** Consultations *)

Definition createConsultation (payload : obj) : M (Result obj) :=
  update (ResultOf (encode Consultation))
    (let* payload := param CreateConsultationPayload payload in
     if falsy (payload !! "patient_id") || falsy (payload !! "problem")
        || falsy (payload !! "department_id")
     then ret (Err (InvalidPayload "Missing required fields"))
     else
       let* consultationId := uuidv4 in
       let consultation := <["id" := VText consultationId]> payload in
       Stable.insert Consultations consultationId consultation;;;
       ret (Ok consultation)).

Definition getConsultationById (consultationId : string) : M (Result obj) :=
  query (ResultOf (encode Consultation))
    (let* consultationOpt := Stable.get Consultations consultationId in
     match consultationOpt with
     | None =>
         ret (Err (NotFound
           ("Consultation with id=" +:+ consultationId +:+ " not found")))
     | Some consultation => ret (Ok consultation)
     end).

Definition getAllConsultations : M (Result (list obj)) :=
  query (ResultOf (Vec Consultation))
    (let* consultations := Stable.values Consultations in
     if bool_decide (length consultations = 0)
     then ret (Err (NotFound "No consultations found"))
     else ret (Ok consultations)).

(** ** Chats *)

Definition createChat (payload : obj) : M (Result obj) :=
  update (ResultOf (encode Chat))
    (let* payload := param CreateChatPayload payload in
     if falsy (payload !! "patient_id") || falsy (payload !! "doctor_id")
        || falsy (payload !! "message") || falsy (payload !! "timestamp")
     then ret (Err (InvalidPayload "Missing required fields"))
     else
       let* chatId := uuidv4 in
       let chat := <["id" := VText chatId]> payload in
       Stable.insert Chats chatId chat;;;
       ret (Ok chat)).

Definition getChatById (chatId : string) : M (Result obj) :=
  query (ResultOf (encode Chat))
    (let* chatOpt := Stable.get Chats chatId in
     match chatOpt with
     | None => ret (Err (NotFound ("Chat with id=" +:+ chatId +:+ " not found")))
     | Some chat => ret (Ok chat)
     end).

Definition getAllChats : M (Result (list obj)) :=
  query (ResultOf (Vec Chat))
    (let* chats := Stable.values Chats in
     if bool_decide (length chats = 0)
     then ret (Err (NotFound "No chats found"))
     else ret (Ok chats)).

(** ** Updates, deletions and searches *)

Definition updatePatient (patientId : string) (payload : obj) : M (Result obj) :=
  update (ResultOf (encode Patient))
    (let* payload := param CreatePatientPayload payload in
     let* patientOpt := Stable.get Patients patientId in
     match patientOpt with
     | None =>
         ret (Err (NotFound ("Patient with id=" +:+ patientId +:+ " not found")))
     | Some patient =>
         let updatedPatient := spread patient payload in
         Stable.insert Patients patientId updatedPatient;;;
         ret (Ok updatedPatient)
     end).

Definition deletePatient (patientId : string) : M (Result Message) :=
  update (ResultOf MessageT)
    (let* patientOpt := Stable.get Patients patientId in
     match patientOpt with
     | None =>
         ret (Err (NotFound ("Patient with id=" +:+ patientId +:+ " not found")))
     | Some _ =>
         Stable.remove Patients patientId;;;
         ret (Ok (Success
           ("Patient with id=" +:+ patientId +:+ " deleted successfully")))
     end).

Definition getConsultationHistoryByPatient (patientId : string)
  : M (Result (list obj)) :=
  query (ResultOf (Vec Consultation))
    (let* all := Stable.values Consultations in
     let consultations :=
       filter (λ consultation : obj,
                 strict_eq (consultation !! "patient_id")
                           (Some (VText patientId)) = true) all in
     if bool_decide (length consultations = 0)
     then ret (Err (NotFound
            ("No consultations found for patient id=" +:+ patientId)))
     else ret (Ok consultations)).

Definition updateDoctorAvailability (doctorId : string) (availability : bool)
  : M (Result obj) :=
  update (ResultOf (encode Doctor))
    (let* doctorOpt := Stable.get Doctors doctorId in
     match doctorOpt with
     | None =>
         ret (Err (NotFound ("Doctor with id=" +:+ doctorId +:+ " not found")))
     | Some doctor =>
         let updatedDoctor := <["available" := VBool availability]> doctor in
         Stable.insert Doctors doctorId updatedDoctor;;;
         ret (Ok updatedDoctor)
     end).

(** The callback of both searches:
    [x.name.toLowerCase().includes(name.toLowerCase())]. *)
Definition name_matches {U : Unicode} (name : string) (x : obj) : option bool :=
  n ← call_toLowerCase (x !! "name");
  Some (includes n (toLowerCase name)).

Definition searchDoctorByName {U : Unicode} (name : string)
  : M (Result (list obj)) :=
  query (ResultOf (Vec Doctor))
    (let* all := Stable.values Doctors in
     let* matchingDoctors := lift (Array_filter (name_matches name) all) in
     if bool_decide (length matchingDoctors = 0)
     then ret (Err (NotFound
            ("No doctors found with name containing '" +:+ name +:+ "'")))
     else ret (Ok matchingDoctors)).

Definition searchDepartmentByName {U : Unicode} (name : string)
  : M (Result (list obj)) :=
  query (ResultOf (Vec Department))
    (let* all := Stable.values Departments in
     let* matchingDepartments := lift (Array_filter (name_matches name) all) in
     if bool_decide (length matchingDepartments = 0)
     then ret (Err (NotFound
            ("No departments found with name containing '" +:+ name +:+ "'")))
     else ret (Ok matchingDepartments)).

Definition updateDoctor (doctorId : string) (payload : obj) : M (Result obj) :=
  update (ResultOf (encode Doctor))
    (let* payload := param CreateDoctorPayload payload in
     let* doctorOpt := Stable.get Doctors doctorId in
     match doctorOpt with
     | None =>
         ret (Err (NotFound ("Doctor with id=" +:+ doctorId +:+ " not found")))
     | Some doctor =>
         let updatedDoctor := spread doctor payload in
         Stable.insert Doctors doctorId updatedDoctor;;;
         ret (Ok updatedDoctor)
     end).

Definition deleteDoctor (doctorId : string) : M (Result Message) :=
  update (ResultOf MessageT)
    (let* doctorOpt := Stable.get Doctors doctorId in
     match doctorOpt with
     | None =>
         ret (Err (NotFound ("Doctor with id=" +:+ doctorId +:+ " not found")))
     | Some _ =>
         Stable.remove Doctors doctorId;;;
         ret (Ok (Success
           ("Doctor with id=" +:+ doctorId +:+ " deleted successfully")))
     end).

Definition deleteDepartment (departmentId : string) : M (Result Message) :=
  update (ResultOf MessageT)
    (let* departmentOpt := Stable.get Departments departmentId in
     match departmentOpt with
     | None =>
         ret (Err (NotFound
           ("Department with id=" +:+ departmentId +:+ " not found")))
     | Some _ =>
         Stable.remove Departments departmentId;;;
         ret (Ok (Success
           ("Department with id=" +:+ departmentId +:+ " deleted successfully")))
     end).

(** * Specification vocabulary *)

(** ** Well-formed states *)

(** The invariant of a map: every stored value is a fixed point of the
    serialisation with the map's value type. *)
Definition wf (m : StableBTreeMap) (st : State) : Prop :=
  map_Forall (λ _ v, encode (valueType m) v = Some v) (contents m st).

#[global] Instance wf_dec m st : Decision (wf m st).
Proof. unfold wf. apply _. Defined.

(** Every stored value of every map is a record of the map's value type. *)
Definition wf_state (st : State) : Prop :=
  wf Departments st ∧ wf Doctors st ∧ wf Patients st ∧
  wf Consultations st ∧ wf Chats st.

Definition maps : list StableBTreeMap :=
  [Departments; Doctors; Patients; Consultations; Chats].

(** A computation keeps the invariant. *)
Definition preserves {A} (c : M A) : Prop :=
  ∀ env st a st', c env st = Some (a, st') → wf_state st → wf_state st'.

(** ** Creation

    A payload is valid when every required field is present at its declared
    type and no text field is empty. *)

Definition nonempty_text (o : obj) (f : string) : Prop :=
  ∃ s, o !! f = Some (VText s) ∧ s ≠ "".

Definition valid_department (P : obj) : Prop := nonempty_text P "name".

Definition valid_doctor (P : obj) : Prop :=
  nonempty_text P "name" ∧ nonempty_text P "department_id" ∧
  nonempty_text P "image".

Definition valid_patient (P : obj) : Prop :=
  nonempty_text P "name" ∧
  ∃ n, P !! "age" = Some (VNat64 n) ∧ (n < 2 ^ 64)%N.

Definition valid_consultation (P : obj) : Prop :=
  nonempty_text P "patient_id" ∧ nonempty_text P "problem" ∧
  nonempty_text P "department_id".

Definition valid_chat (P : obj) : Prop :=
  nonempty_text P "patient_id" ∧ nonempty_text P "doctor_id" ∧
  nonempty_text P "message" ∧ nonempty_text P "timestamp".

(** No stored doctor has the payload's name and department. *)
Definition name_free (st : State) (P : obj) : Prop :=
  Forall (λ d : obj,
            ¬ (d !! "name" = P !! "name" ∧
               d !! "department_id" = P !! "department_id"))
         (stored Doctors st).

#[global] Instance name_free_dec st P : Decision (name_free st P).
Proof. unfold name_free. apply _. Defined.

(** What [createX] stores and returns: the record [R], under the fresh id. *)
Definition created (m : StableBTreeMap) (R : obj) (env : Env) (st : State)
  : option (Result obj * State) :=
  Some (Ok R, <[memoryId m := <[uuid env := R]> (contents m st)]> st).

(** [createX(P)] succeeds with a record whose [id] finds that same record in
    the state that the creation leaves. *)
Definition create_then_get (create : obj → M (Result obj))
    (getById : string → M (Result obj)) (P : obj) (st : State) : Prop :=
  ∀ env, ∃ R st' id,
    create P env st = Some (Ok R, st') ∧
    R !! "id" = Some (VText id) ∧
    ∀ env', getById id env' st' = Some (Ok R, st').

(** The policy of [getAllX]: on an empty map it answers [NotFound]; after one
    creation from a valid payload into an empty map it answers the list that
    holds exactly the created record. *)
Definition getAll_policy (m : StableBTreeMap) (valid : obj → Prop)
    (create : obj → M (Result obj)) (getAll : M (Result (list obj))) : Prop :=
  ∀ st, contents m st = ∅ →
    (∀ env, ∃ msg, getAll env st = Some (Err (NotFound msg), st)) ∧
    (∀ P env, valid P →
       ∃ R st', create P env st = Some (Ok R, st') ∧
                ∀ env', getAll env' st' = Some (Ok [R], st')).

(** ** Deletion *)

(** What [deleteX] does.  When [id] is stored: it answers a [Success]
    message and leaves the map without [id] and otherwise as it was, every
    other map untouched; in that state the lookup of [id] and a second
    deletion both answer [NotFound].  When [id] is not stored: it answers
    [NotFound] and the state is as it was. *)
Definition delete_spec (m : StableBTreeMap)
    (deleteX : string → M (Result Message))
    (getById : string → M (Result obj)) : Prop :=
  ∀ id env st,
    (∀ r, contents m st !! id = Some r →
       ∃ msg st',
         deleteX id env st = Some (Ok (Success msg), st') ∧
         contents m st' !! id = None ∧
         (∀ k, k ≠ id → contents m st' !! k = contents m st !! k) ∧
         (∀ i, i ≠ memoryId m → st' !! i = st !! i) ∧
         (∀ env', ∃ msg', getById id env' st' = Some (Err (NotFound msg'), st')) ∧
         (∀ env', ∃ msg', deleteX id env' st' = Some (Err (NotFound msg'), st'))) ∧
    (contents m st !! id = None →
       ∃ msg, deleteX id env st = Some (Err (NotFound msg), st)).

(** ** Listings *)

(** [l] lists values of the map, each with a key under which it is stored,
    the keys ascending in the order of the B-tree and no key twice. *)
Definition in_key_order (m : StableBTreeMap) (st : State) (l : list obj) : Prop :=
  ∃ es : list (string * obj),
    l = es.*2 ∧ StronglySorted entry_le es ∧ NoDup es.*1 ∧
    ∀ k v, (k, v) ∈ es → contents m st !! k = Some v.

(** ** Lookups by owner *)

(** The record's owner and the caller have the same textual form. *)
Definition owned_by (c : Principal) (d : obj) : Prop :=
  ∃ p, d !! "owner" = Some (VPrincipal p) ∧ toText p = toText c.

Definition owned_byb (c : Principal) (d : obj) : bool :=
  match d !! "owner" with
  | Some (VPrincipal p) => bool_decide (toText p = toText c)
  | _ => false
  end.

(** [d] is the first value of [l] that [c] owns. *)
Definition first_owned (c : Principal) (l : list obj) (d : obj) : Prop :=
  ∃ pre post, l = (pre ++ d :: post)%list ∧ owned_by c d ∧
              Forall (λ x, ¬ owned_by c x) pre.

(** [d] is stored under the least key among the records that [c] owns, in
    the order of the serialised keys. *)
Definition least_owned (c : Principal) (m : StableBTreeMap) (st : State)
    (d : obj) : Prop :=
  ∃ k, contents m st !! k = Some d ∧ owned_by c d ∧
       ∀ k' d', contents m st !! k' = Some d' → owned_by c d' → key_le k k'.

(** What [getXByOwner] answers on a well-formed map: [NotFound] when the
    caller owns no stored record, and otherwise the first stored record that
    the caller owns, which is the one under the least key; the answer is
    never anything else. *)
Definition byOwner_spec (m : StableBTreeMap) (getByOwner : M (Result obj)) : Prop :=
  ∀ env st, wf m st →
    (Forall (λ d, ¬ owned_by (caller env) d) (stored m st) →
       ∃ msg, getByOwner env st = Some (Err (NotFound msg), st)) ∧
    (∀ d, first_owned (caller env) (stored m st) d →
       getByOwner env st = Some (Ok d, st)) ∧
    (∀ d, getByOwner env st = Some (Ok d, st) →
       first_owned (caller env) (stored m st) d ∧
       least_owned (caller env) m st d).

(** ** Search by name *)


Definition name_containsb {U : Unicode} (s : string) (d : obj) : bool :=
  match d !! "name" with
  | Some (VText n) => includes (toLowerCase n) (toLowerCase s)
  | _ => false
  end.

(** Two characters are the same, or the two cases of one of the letters [A]
    to [Z] (codes 65 to 90, the small letters being 32 above). *)
Definition same_letter (a b : Ascii.ascii) : Prop :=
  a = b ∨
  ∃ n, (65 ≤ n ≤ 90)%nat ∧
       ((Ascii.nat_of_ascii a = n ∧ Ascii.nat_of_ascii b = (n + 32)%nat) ∨
        (Ascii.nat_of_ascii b = n ∧ Ascii.nat_of_ascii a = (n + 32)%nat)).

(** Two texts of the same length that differ in the case of letters only. *)
Fixpoint same_letters (s t : string) : Prop :=
  match s, t with
  | EmptyString, EmptyString => True
  | String a s', String b t' => same_letter a b ∧ same_letters s' t'
  | _, _ => False
  end.




(** The record's name, if it has one, is ASCII text. *)
Definition ascii_name (d : obj) : bool :=
  match d !! "name" with
  | Some (VText n) => is_ascii n
  | _ => true
  end.

(** ** Updates *)

(** What [updateX] does on a well-formed map, for a payload type [Tp].  A
    payload that carries every field of [Tp] at its type: when [id] is
    stored, the record stored and returned under [id] has the payload's value
    in every field that [Tp] declares and the existing value in every other
    field; when [id] is not stored, the answer is [NotFound] and the state is
    as it was.  A payload that lacks a field of [Tp] is rejected before the
    body runs: the call traps. *)
Definition update_spec (m : StableBTreeMap) (Tp : RecordType)
    (updateX : string → obj → M (Result obj)) : Prop :=
  ∀ id payload env st, wf m st →
    (∀ r, contents m st !! id = Some r → is_Some (decode Tp payload) →
       ∃ r', updateX id payload env st =
               Some (Ok r', <[memoryId m := <[id := r']> (contents m st)]> st) ∧
             (∀ k, k ∈ Tp.*1 → r' !! k = payload !! k) ∧
             (∀ k, k ∉ Tp.*1 → r' !! k = r !! k)) ∧
    (contents m st !! id = None → is_Some (decode Tp payload) →
       ∃ msg, updateX id payload env st = Some (Err (NotFound msg), st)) ∧
    (decode Tp payload = None → updateX id payload env st = None).

(** An update leaves the owner of the record as it was: the record that a
    successful update returns and stores has the owner of the stored record;
    and on a well-formed map every payload that carries the fields of [Tp]
    makes the update of a stored id succeed. *)
Definition keeps_owner (m : StableBTreeMap) (Tp : RecordType)
    (updateX : string → obj → M (Result obj)) : Prop :=
  ∀ id payload env st r,
    contents m st !! id = Some r →
    (∀ R st', updateX id payload env st = Some (Ok R, st') →
       R !! "owner" = r !! "owner" ∧ contents m st' !! id = Some R) ∧
    (wf m st → is_Some (decode Tp payload) →
       ∃ R st', updateX id payload env st = Some (Ok R, st')).

(** ** A small clinic, for concrete runs *)

Definition alice : Principal := mkPrincipal "2vxsx-fae".
Definition bob : Principal := mkPrincipal "rrkah-fqaaa-aaaaa-aaaaq-cai".

Definition cardiology : obj :=
  {[ "id" := VText "dep-1"; "name" := VText "Cardiology" ]}.

Definition john : obj :=
  {[ "id" := VText "doc-1"; "owner" := VPrincipal alice;
     "name" := VText "John Doe"; "department_id" := VText "dep-1";
     "image" := VText "john.png" ]}.

Definition jane : obj :=
  {[ "id" := VText "doc-2"; "owner" := VPrincipal alice;
     "name" := VText "Jane Roe"; "department_id" := VText "dep-1";
     "image" := VText "jane.png" ]}.

Definition ann : obj :=
  {[ "id" := VText "pat-1"; "owner" := VPrincipal bob;
     "name" := VText "Ann"; "age" := VNat64 30 ]}.

Definition clinic : State :=
  {[ 0 := {[ "dep-1" := cardiology ]};
     1 := {[ "doc-1" := john; "doc-2" := jane ]};
     2 := {[ "pat-1" := ann ]} ]}.

Definition as_alice : Env := mkEnv alice "doc-3".
Definition as_bob : Env := mkEnv bob "doc-4".

Definition new_department : obj := {[ "name" := VText "Oncology" ]}.

Definition new_doctor : obj :=
  {[ "name" := VText "Dr. Lee"; "department_id" := VText "dep-1";
     "image" := VText "img.png" ]}.

Definition new_patient : obj := {[ "name" := VText "Ben"; "age" := VNat64 0 ]}.

Definition new_consultation : obj :=
  {[ "patient_id" := VText "pat-1"; "problem" := VText "chest pain";
     "department_id" := VText "dep-1" ]}.

Definition new_chat : obj :=
  {[ "patient_id" := VText "pat-1"; "doctor_id" := VText "doc-1";
     "message" := VText "hello"; "timestamp" := VText "2024-05-01T10:00:00Z" ]}.

(** A second John Doe for the same department, with another image. *)
Definition john_again : obj :=
  {[ "name" := VText "John Doe"; "department_id" := VText "dep-1";
     "image" := VText "other.png" ]}.

(** The payload of the update [{age: 40}], and the same with Ann's name. *)
Definition age_only : obj := {[ "age" := VNat64 40 ]}.
Definition ann_at_40 : obj := {[ "name" := VText "Ann"; "age" := VNat64 40 ]}.

(** A payload that names Bob as the owner of John's record. *)
Definition take_over : obj :=
  {[ "name" := VText "John Doe"; "department_id" := VText "dep-1";
     "image" := VText "john.png"; "owner" := VPrincipal bob ]}.

(** ** Further vocabulary: outcomes of creation, listings, call sequences *)

(** A creation answers [InvalidPayload] with the message of the first check,
    and leaves the state as it was, for every payload that decodes at [Tp]
    and is not valid. *)
Definition rejects_missing (Tp : RecordType) (valid : obj → Prop)
    (create : obj → M (Result obj)) : Prop :=
  ∀ P env st, is_Some (decode Tp P) → ¬ valid P →
    create P env st = Some (Err (InvalidPayload "Missing required fields"), st).

(** What [getAllX] answers on a well-formed map that is not empty: every
    stored value, once per key. *)
Definition getAll_spec (m : StableBTreeMap) (getAll : M (Result (list obj))) : Prop :=
  ∀ env st, wf m st → contents m st ≠ ∅ →
    ∃ l, getAll env st = Some (Ok l, st) ∧
         length l = size (contents m st) ∧
         ∀ v, v ∈ l ↔ ∃ k, contents m st !! k = Some v.

(** The consultation is about the patient [pid]. *)
Definition consults (pid : string) (c : obj) : Prop :=
  c !! "patient_id" = Some (VText pid).

(** What a creation writes: the record under the generated id and nothing
    else; the map grows by one key, unless the generated id was a key
    already, in which case the record under it is replaced. *)
Definition create_frame (m : StableBTreeMap) (valid : State → obj → Prop)
    (create : obj → M (Result obj)) : Prop :=
  ∀ P env st, valid st P →
    ∃ R st',
      create P env st = Some (Ok R, st') ∧
      contents m st' !! uuid env = Some R ∧
      (∀ k, k ≠ uuid env → contents m st' !! k = contents m st !! k) ∧
      (∀ i, i ≠ memoryId m → st' !! i = st !! i) ∧
      size (contents m st') =
        match contents m st !! uuid env with
        | Some _ => size (contents m st)
        | None => S (size (contents m st))
        end.

(** The update calls of the canister. *)
Inductive call :=
| CreateDepartment (payload : obj)
| CreateDoctor (payload : obj)
| CreatePatient (payload : obj)
| CreateConsultation (payload : obj)
| CreateChat (payload : obj)
| UpdatePatient (id : string) (payload : obj)
| UpdateDoctor (id : string) (payload : obj)
| UpdateDoctorAvailability (id : string) (availability : bool)
| DeletePatient (id : string)
| DeleteDoctor (id : string)
| DeleteDepartment (id : string).

(** The state that a call leaves: its post-state, or the state as it was
    when the call trapped. *)
Definition after {A} (r : option (A * State)) (st : State) : State :=
  match r with
  | Some (_, st') => st'
  | None => st
  end.

Definition exec (c : call) (env : Env) (st : State) : State :=
  match c with
  | CreateDepartment P => after (createDepartment P env st) st
  | CreateDoctor P => after (createDoctor P env st) st
  | CreatePatient P => after (createPatient P env st) st
  | CreateConsultation P => after (createConsultation P env st) st
  | CreateChat P => after (createChat P env st) st
  | UpdatePatient id P => after (updatePatient id P env st) st
  | UpdateDoctor id P => after (updateDoctor id P env st) st
  | UpdateDoctorAvailability id b => after (updateDoctorAvailability id b env st) st
  | DeletePatient id => after (deletePatient id env st) st
  | DeleteDoctor id => after (deleteDoctor id env st) st
  | DeleteDepartment id => after (deleteDepartment id env st) st
  end.

(** The states that the canister reaches from the empty stable memory. *)
Inductive reachable : State → Prop :=
| reachable_init : reachable ∅
| reachable_step st c env : reachable st → reachable (exec c env st).

(** Every record of the map is stored under its own [id]. *)
Definition keyed (m : StableBTreeMap) (st : State) : Prop :=
  map_Forall (λ k v, v !! "id" = Some (VText k)) (contents m st).

Definition keyed_state (st : State) : Prop :=
  keyed Departments st ∧ keyed Doctors st ∧ keyed Patients st ∧
  keyed Consultations st ∧ keyed Chats st.

(** ** Further data for concrete runs *)

(** A doctor without an image. *)
Definition no_image : obj :=
  {[ "name" := VText "Dr. Lee"; "department_id" := VText "dep-1";
     "image" := VText "" ]}.

(** Two consultations of Ann and one of somebody else. *)
Definition visit1 : obj :=
  {[ "id" := VText "con-1"; "patient_id" := VText "pat-1";
     "problem" := VText "chest pain"; "department_id" := VText "dep-1" ]}.

Definition visit2 : obj :=
  {[ "id" := VText "con-2"; "patient_id" := VText "pat-9";
     "problem" := VText "cough"; "department_id" := VText "dep-1" ]}.

Definition visit3 : obj :=
  {[ "id" := VText "con-3"; "patient_id" := VText "pat-1";
     "problem" := VText "follow-up"; "department_id" := VText "dep-1" ]}.

Definition busy_clinic : State :=
  <[3 := {[ "con-1" := visit1; "con-2" := visit2; "con-3" := visit3 ]}]> clinic.

(** A patient payload without a name. *)
Definition nameless : obj := {[ "name" := VText ""; "age" := VNat64 30 ]}.

(** A call whose generated id is the key of John's record. *)
Definition colliding : Env := mkEnv bob "doc-1".

(** The first state after the empty one: Alice has created Dr. Lee. *)
Definition opened : State := exec (CreateDoctor new_doctor) as_alice ∅.

(** Dr. Lee's record in that state. *)
Definition lee : obj :=
  {[ "id" := VText "doc-3"; "owner" := VPrincipal alice;
     "name" := VText "Dr. Lee"; "department_id" := VText "dep-1";
     "image" := VText "img.png" ]}.

(** A payload with Dr. Lee's name and department, and another image. *)
Definition same_as_new : obj :=
  {[ "name" := VText "Dr. Lee"; "department_id" := VText "dep-1";
     "image" := VText "other.png" ]}.

(** Three doctors of Alice, created from the empty memory under the ids
    [doc-2], [doc-3] and [doc-1], in this order. *)
Definition doctor_named (n : string) : obj :=
  {[ "name" := VText n; "department_id" := VText "dep-1";
     "image" := VText "img.png" ]}.

Definition three_doctors : State :=
  exec (CreateDoctor (doctor_named "Dr. One")) (mkEnv alice "doc-1")
    (exec (CreateDoctor (doctor_named "Dr. Three")) (mkEnv alice "doc-3")
       (exec (CreateDoctor (doctor_named "Dr. Two")) (mkEnv alice "doc-2") ∅)).

Definition doctor_of (n id : string) : obj :=
  {[ "id" := VText id; "owner" := VPrincipal alice;
     "name" := VText n; "department_id" := VText "dep-1";
     "image" := VText "img.png" ]}.

(** * Properties *)

(** ** Serialisation *)

Section encode_facts.
Context (T : RecordType).
Implicit Types o r : obj.

Lemma declared_lookup o k :
  declared T o !! k = if decide (k ∈ T.*1) then o !! k else None.
Proof.
  unfold declared. case_decide as Hk.
  - destruct (o !! k) as [v|] eqn:Hv.
    + apply map_lookup_filter_Some. done.
    + apply map_lookup_filter_None. left. done.
  - apply map_lookup_filter_None. right. intros v _. done.
Qed.

Lemma encode_Some o r :
  encode T o = Some r ↔ forallb (field_ok o) T = true ∧ r = declared T o.
Proof.
  unfold encode. destruct (forallb (field_ok o) T).
  - split; [intros [= <-] | intros [_ ->]]; done.
  - split; [done | by intros [? _]].
Qed.

Lemma encode_None o :
  encode T o = None ↔ forallb (field_ok o) T = false.
Proof. unfold encode. by destruct (forallb (field_ok o) T). Qed.

Lemma encode_lookup o r k :
  encode T o = Some r →
  r !! k = if decide (k ∈ T.*1) then o !! k else None.
Proof. intros [_ ->]%encode_Some. apply declared_lookup. Qed.

Lemma encode_lookup_in o r k :
  encode T o = Some r → k ∈ T.*1 → r !! k = o !! k.
Proof. intros H Hk. rewrite (encode_lookup _ _ _ H). by rewrite decide_True. Qed.

Lemma encode_lookup_notin o r k :
  encode T o = Some r → k ∉ T.*1 → r !! k = None.
Proof. intros H Hk. rewrite (encode_lookup _ _ _ H). by rewrite decide_False. Qed.

Lemma field_ok_ext o o' :
  (∀ k, k ∈ T.*1 → o' !! k = o !! k) →
  forallb (field_ok o') T = forallb (field_ok o) T.
Proof.
  intros Hext. induction T as [|[k t] T' IH]; [done|]. simpl.
  f_equal.
  - unfold field_ok. simpl. rewrite Hext; [done|]. simpl. left.
  - apply IH. intros k' Hk'. apply Hext. simpl. by right.
Qed.

Lemma declared_idemp o : declared T (declared T o) = declared T o.
Proof.
  apply map_eq. intros k. rewrite !declared_lookup. by case_decide.
Qed.

(** Serialising is idempotent: what was written reads back as itself. *)
Lemma encode_idemp o r : encode T o = Some r → encode T r = Some r.
Proof.
  intros [Hall ->]%encode_Some. apply encode_Some. split.
  - rewrite <- Hall. apply field_ok_ext. intros k Hk.
    rewrite declared_lookup. by rewrite decide_True.
  - by rewrite declared_idemp.
Qed.

(** An object that declares nothing beyond [T] and passes the check is
    written as it is. *)
Lemma encode_exact o :
  forallb (field_ok o) T = true →
  (∀ k, k ∉ T.*1 → o !! k = None) →
  encode T o = Some o.
Proof.
  intros Hall Hdom. apply encode_Some. split; [done|].
  apply map_eq. intros k. rewrite declared_lookup.
  case_decide; [done|]. by apply Hdom.
Qed.

Lemma encode_field o r k t :
  encode T o = Some r → (k, t) ∈ T →
  ∃ v, o !! k = Some v ∧ r !! k = Some v ∧ has_type t v = true.
Proof.
  intros H Hin. pose proof H as [Hall _]%encode_Some.
  rewrite forallb_forall in Hall.
  pose proof Hin as Hok%list_elem_of_In%Hall.
  unfold field_ok in Hok. simpl in Hok.
  destruct (o !! k) as [v|] eqn:Hv; [|done].
  exists v. split_and!; [done| |done].
  rewrite (encode_lookup_in _ _ _ H); [done|].
  apply list_elem_of_fmap. by exists (k, t).
Qed.

Lemma forallb_field_ok o :
  forallb (field_ok o) T = true ↔
  ∀ k t, (k, t) ∈ T → ∃ v, o !! k = Some v ∧ has_type t v = true.
Proof.
  rewrite forallb_forall. split.
  - intros H k t Hin%list_elem_of_In. apply H in Hin.
    unfold field_ok in Hin. simpl in Hin.
    destruct (o !! k) as [v|]; [eauto | done].
  - intros H [k t] Hin%list_elem_of_In. destruct (H k t Hin) as (v & Hv & Ht).
    unfold field_ok. simpl. by rewrite Hv.
Qed.

End encode_facts.

(** ** Stable memory *)

Lemma contents_insert_eq m (st : State) c :
  contents m (<[memoryId m := c]> st) = c.
Proof. unfold contents. by rewrite lookup_insert_eq. Qed.

Lemma contents_insert_ne m m' (st : State) c :
  memoryId m ≠ memoryId m' → contents m' (<[memoryId m := c]> st) = contents m' st.
Proof. intros Hne. unfold contents. by rewrite lookup_insert_ne. Qed.

Lemma contents_empty m : contents m ∅ = ∅.
Proof. unfold contents. by rewrite lookup_empty. Qed.

(** ** The order of the keys *)

Lemma bytes_leb_refl a : bytes_leb a a = true.
Proof.
  induction a as [|x a IH]; [done|]. simpl.
  rewrite N.eqb_refl, IH. apply orb_true_r.
Qed.

Lemma bytes_leb_total a b : bytes_leb a b = true ∨ bytes_leb b a = true.
Proof.
  revert b. induction a as [|x a IH]; intros [|y b]; simpl; auto.
  destruct (N.lt_trichotomy x y) as [Hlt|[->|Hgt]].
  - left. apply N.ltb_lt in Hlt. by rewrite Hlt.
  - rewrite N.eqb_refl, N.ltb_irrefl. simpl. apply IH.
  - right. apply N.ltb_lt in Hgt. by rewrite Hgt.
Qed.

Lemma bytes_leb_trans a b c :
  bytes_leb a b = true → bytes_leb b c = true → bytes_leb a c = true.
Proof.
  revert b c. induction a as [|x a IH]; intros [|y b] [|z c]; simpl; try done.
  rewrite !orb_true_iff, !andb_true_iff, !N.ltb_lt, !N.eqb_eq.
  intros [Hxy|[-> Hab]] [Hyz|[-> Hbc]].
  - left. lia.
  - by left.
  - by left.
  - right. split; [done|]. by apply (IH b).
Qed.

Lemma bytes_leb_antisym a b :
  bytes_leb a b = true → bytes_leb b a = true → a = b.
Proof.
  revert b. induction a as [|x a IH]; intros [|y b]; simpl; try done.
  rewrite !orb_true_iff, !andb_true_iff, !N.ltb_lt, !N.eqb_eq.
  intros [Hxy|[-> Hab]] [Hyx|[Heq Hba]]; try lia.
  f_equal. by apply IH.
Qed.

#[global] Instance key_le_refl : Reflexive key_le.
Proof. intros k. apply bytes_leb_refl. Qed.

#[global] Instance key_le_trans : Transitive key_le.
Proof. intros k1 k2 k3. apply bytes_leb_trans. Qed.

#[global] Instance key_le_total : Total key_le.
Proof. intros k1 k2. apply bytes_leb_total. Qed.

#[global] Instance entry_le_trans : Transitive entry_le.
Proof. intros x y z. apply key_le_trans. Qed.

#[global] Instance entry_le_total : Total entry_le.
Proof. intros x y. apply key_le_total. Qed.

(** The groups of a number stand for it: the recursion of [leb128] always
    ends on a last group, below 128. *)
Lemma leb128_groups_value fuel n :
  N.to_nat n < fuel → unleb128 (leb128_groups fuel n) = n.
Proof.
  revert n. induction fuel as [|fuel IH]; intros n Hn; [lia|]. simpl.
  destruct (N.ltb_spec n 128) as [Hlt|Hge]; simpl.
  - by rewrite (proj2 (N.ltb_lt n 128) Hlt).
  - rewrite (proj2 (N.ltb_ge (128 + n mod 128) 128)) by apply N.le_add_r.
    assert (n / 128 < n)%N as Hdiv by (apply N.div_lt; lia).
    rewrite IH by lia.
    assert (n = 128 * (n / 128) + n mod 128)%N as Hn' by (apply N.div_mod; lia).
    revert Hn'. generalize (n / 128)%N (n mod 128)%N. intros q r Hn'. lia.
Qed.

Lemma leb128_value n : unleb128 (leb128 n) = n.
Proof. apply leb128_groups_value. lia. Qed.

Lemma leb128_inj n n' : leb128 n = leb128 n' → n = n'.
Proof. intros H. by rewrite <- (leb128_value n), H, leb128_value. Qed.

Lemma utf8_inj s t : utf8 s = utf8 t → s = t.
Proof.
  revert t. induction s as [|c s IH]; intros [|c' t]; simpl; try done.
  intros [= Hc Hs]. f_equal; [|by apply IH].
  rewrite <- (Ascii.ascii_N_embedding c), <- (Ascii.ascii_N_embedding c').
  by rewrite Hc.
Qed.

(** Keys of one length are in the order of their bytes. *)
Lemma key_le_same_length k k' :
  length (utf8 k) = length (utf8 k') →
  key_le k k' ↔ bytes_leb (utf8 k) (utf8 k') = true.
Proof.
  intros Hlen. unfold key_le, toBytes. rewrite Hlen.
  generalize (leb128 (N.of_nat (length (utf8 k')))). intros p.
  assert (∀ q : list N,
    bytes_leb (q ++ utf8 k) (q ++ utf8 k') = bytes_leb (utf8 k) (utf8 k')) as Hq.
  { induction q as [|x q IH]; [done|]. simpl.
    by rewrite N.ltb_irrefl, N.eqb_refl, IH. }
  by rewrite (assoc_L (++)), Hq.
Qed.

Lemma first_number_leb128 fuel n (x : list N) :
  N.to_nat n < fuel →
  first_number (leb128_groups fuel n ++ x) = leb128_groups fuel n.
Proof.
  revert n. induction fuel as [|fuel IH]; intros n Hn; [lia|]. simpl.
  destruct (N.ltb_spec n 128) as [Hlt|Hge]; simpl.
  - by rewrite (proj2 (N.ltb_lt n 128) Hlt).
  - rewrite (proj2 (N.ltb_ge (128 + n mod 128) 128)) by apply N.le_add_r.
    assert (n / 128 < n)%N as Hdiv by (apply N.div_lt; lia).
    f_equal. apply IH. lia.
Qed.

(** Different keys have different serialised forms. *)
Lemma toBytes_inj k k' : toBytes k = toBytes k' → k = k'.
Proof.
  unfold toBytes. intros H%app_inv_head.
  assert (leb128 (N.of_nat (length (utf8 k))) =
          leb128 (N.of_nat (length (utf8 k')))) as Hlen.
  { unfold leb128.
    rewrite <- (first_number_leb128 _ _ (utf8 k)) by lia.
    rewrite <- (first_number_leb128 _ (N.of_nat (length (utf8 k'))) (utf8 k'))
      by lia.
    unfold leb128 in H. by rewrite H. }
  rewrite Hlen in H. by apply app_inv_head, utf8_inj in H.
Qed.

(** Two keys that are each before the other are the same: the keys of a map
    are in a strict order. *)
Lemma key_le_antisym k k' : key_le k k' → key_le k' k → k = k'.
Proof. intros H1 H2. by apply toBytes_inj, bytes_leb_antisym. Qed.

(** [values()] lists every entry once, in the order of the keys. *)
Lemma items_Permutation m st : items m st ≡ₚ map_to_list (contents m st).
Proof. apply merge_sort_Permutation. Qed.

Lemma items_elem_of m st k (v : obj) :
  (k, v) ∈ items m st ↔ contents m st !! k = Some v.
Proof. rewrite items_Permutation. apply elem_of_map_to_list. Qed.

Lemma items_sorted m st : StronglySorted entry_le (items m st).
Proof. apply StronglySorted_merge_sort; apply _. Qed.

Lemma items_NoDup m st : NoDup (items m st).*1.
Proof. rewrite items_Permutation. apply NoDup_fst_map_to_list. Qed.

Lemma sublist_snd_inv {A B} (l : list B) (es : list (A * B)) :
  sublist l es.*2 → ∃ es', l = es'.*2 ∧ sublist es' es.
Proof.
  revert l. induction es as [|e es IH]; intros l H.
  - apply sublist_nil_r in H as ->. by exists [].
  - csimpl in H. apply sublist_cons_r in H as [H | (l' & -> & H)].
    + destruct (IH _ H) as (es' & -> & Hs). exists es'.
      split; [done|]. by apply sublist_cons.
    + destruct (IH _ H) as (es' & -> & Hs). exists (e :: es').
      split; [done|]. by apply sublist_skip.
Qed.

Lemma StronglySorted_sublist {A} (R : relation A) (l k : list A) :
  sublist l k → StronglySorted R k → StronglySorted R l.
Proof.
  induction 1 as [|x l k Hs IH|x l k Hs IH]; intros Hk; [done| |].
  - apply StronglySorted_cons in Hk as [Hx Hk].
    apply StronglySorted_cons. split; [|by apply IH].
    rewrite Forall_forall in Hx. apply Forall_forall. intros y Hy.
    apply Hx. by eapply elem_of_sublist.
  - apply StronglySorted_cons in Hk as [_ Hk]. by apply IH.
Qed.

(** A part of [values()], in its order, is in the order of the keys. *)
Lemma sublist_in_key_order m st l :
  sublist l (stored m st) → in_key_order m st l.
Proof.
  intros (es & -> & Hs)%sublist_snd_inv. exists es. split_and!.
  - done.
  - eapply StronglySorted_sublist; [exact Hs | apply items_sorted].
  - eapply sublist_NoDup; [apply items_NoDup | by apply fmap_sublist].
  - intros k v Hin. apply items_elem_of. by eapply elem_of_sublist.
Qed.

Lemma stored_in_key_order m st : in_key_order m st (stored m st).
Proof. by apply sublist_in_key_order. Qed.

(** The first value of a sorted listing that satisfies a test is the one
    under the least key. *)
Lemma sorted_filter_head (P : obj → Prop) `{∀ x, Decision (P x)}
    (l : list (string * obj)) d rest :
  StronglySorted entry_le l → filter P l.*2 = d :: rest →
  ∃ k, (k, d) ∈ l ∧ ∀ k' d', (k', d') ∈ l → P d' → key_le k k'.
Proof.
  induction 1 as [|[k0 d0] l Hl IH Hall]; [done|]. csimpl.
  destruct (decide (P d0)) as [Hd|Hd].
  - rewrite filter_cons_True by done. intros [= -> _].
    exists k0. split; [left|]. intros k' d' Hin _.
    apply elem_of_cons in Hin as [[= -> ->]|Hin]; [reflexivity|].
    rewrite Forall_forall in Hall. exact (Hall _ Hin).
  - rewrite filter_cons_False by done. intros Hf.
    destruct (IH Hf) as (k & Hk & Hleast). exists k. split; [by right|].
    intros k' d' Hin HP.
    apply elem_of_cons in Hin as [[= -> ->]|Hin]; [done|]. by eapply Hleast.
Qed.

Lemma filter_head_inv {A} (P : A → Prop) `{∀ x, Decision (P x)} (l : list A) x r :
  filter P l = x :: r →
  ∃ pre post, l = (pre ++ x :: post)%list ∧ Forall (λ y, ¬ P y) pre ∧ P x.
Proof.
  induction l as [|y l IH]; [done|].
  destruct (decide (P y)) as [Hy|Hy].
  - rewrite filter_cons_True by done. intros [= -> _].
    by exists [], l.
  - rewrite filter_cons_False by done. intros Hf.
    destruct (IH Hf) as (pre & post & -> & Hpre & Hx).
    exists (y :: pre), post. split_and!; [done| by constructor |done].
Qed.

Lemma stored_elem_of m st (v : obj) :
  v ∈ stored m st ↔ ∃ k, contents m st !! k = Some v.
Proof.
  unfold stored. rewrite list_elem_of_fmap. split.
  - intros [[k v'] [-> Hin]]. exists k. by apply items_elem_of.
  - intros [k Hk]. exists (k, v). split; [done|]. by apply items_elem_of.
Qed.

Lemma wf_lookup m st k v :
  wf m st → contents m st !! k = Some v → encode (valueType m) v = Some v.
Proof. intros Hwf Hk. exact (Hwf k v Hk). Qed.

Lemma wf_stored m st v :
  wf m st → v ∈ stored m st → encode (valueType m) v = Some v.
Proof. intros Hwf [k Hk]%stored_elem_of. by eapply wf_lookup. Qed.

(** ** Running a method body

    One equation per primitive, for stepping through a body by rewriting. *)

Section run.
Context {B : Type} (k : obj → M B) (env : Env) (st : State).

Lemma run_param T raw p :
  decode T raw = Some p → bind (param T raw) k env st = k p env st.
Proof. intros H. unfold bind, param, lift. by rewrite H. Qed.

Lemma run_param_None T raw :
  decode T raw = None → bind (param T raw) k env st = None.
Proof. intros H. unfold bind, param, lift. by rewrite H. Qed.

End run.

Section run_more.
Context {B : Type} (env : Env) (st : State).

Lemma run_uuidv4 (k : string → M B) :
  bind uuidv4 k env st = k (uuid env) env st.
Proof. done. Qed.

Lemma run_caller (k : Principal → M B) :
  bind ic_caller k env st = k (caller env) env st.
Proof. done. Qed.

Lemma run_get m id (k : option obj → M B) :
  bind (Stable.get m id) k env st = k (contents m st !! id) env st.
Proof. done. Qed.

Lemma run_values m (k : list obj → M B) :
  bind (Stable.values m) k env st = k (stored m st) env st.
Proof. done. Qed.

Lemma run_lift {A} (o : option A) a (k : A → M B) :
  o = Some a → bind (lift o) k env st = k a env st.
Proof. by intros ->. Qed.

Lemma run_lift_None {A} (o : option A) (k : A → M B) :
  o = None → bind (lift o) k env st = None.
Proof. by intros ->. Qed.

Lemma run_insert m id v r (k : unit → M B) :
  encode (valueType m) v = Some r →
  bind (Stable.insert m id v) k env st =
  k tt env (<[memoryId m := <[id := r]> (contents m st)]> st).
Proof. intros H. unfold bind, Stable.insert. by rewrite H. Qed.

Lemma run_insert_None m id v (k : unit → M B) :
  encode (valueType m) v = None → bind (Stable.insert m id v) k env st = None.
Proof. intros H. unfold bind, Stable.insert. by rewrite H. Qed.

Lemma run_remove m id (k : unit → M B) :
  bind (Stable.remove m id) k env st =
  k tt env (<[memoryId m := delete id (contents m st)]> st).
Proof. done. Qed.

End run_more.

(** ** Creation *)

Lemma falsy_text s : s ≠ "" → falsy (Some (VText s)) = false.
Proof. intros Hne. simpl. by apply bool_decide_eq_false_2. Qed.

Lemma option_union_None_r {A} (x : option A) : x ∪ None = x.
Proof. by destruct x. Qed.

Ltac fields :=
  unfold spread;
  repeat first
    [ rewrite lookup_union
    | rewrite lookup_insert_eq
    | rewrite lookup_singleton_eq
    | rewrite lookup_insert_ne by done
    | rewrite lookup_singleton_ne by done
    | rewrite declared_lookup; simpl decide
    | rewrite option_union_None_r ];
  simpl.

(** Discharge the serialisation check of a concrete record type. *)
Ltac typed :=
  simpl forallb; unfold field_ok; simpl fst; simpl snd; fields.

Lemma createDepartment_valid P env st :
  valid_department P →
  ∃ R, encode Department R = Some R ∧
       R !! "id" = Some (VText (uuid env)) ∧
       R !! "name" = P !! "name" ∧
       createDepartment P env st = created Departments R env st.
Proof.
  intros (n & Hn & Hne).
  set (p := declared CreateDepartmentPayload P).
  assert (decode CreateDepartmentPayload P = Some p) as Hp.
  { apply encode_Some. split; [|done]. typed. by rewrite Hn. }
  set (o := spread {[ "id" := VText (uuid env) ]} p).
  assert (encode Department o = Some (declared Department o)) as Ho.
  { apply encode_Some. split; [|done]. subst o p. typed. by rewrite Hn. }
  exists (declared Department o). split_and!.
  - by eapply encode_idemp.
  - subst o p. by fields.
  - subst o p. by fields.
  - unfold createDepartment, update.
    erewrite run_param by exact Hp.
    replace (p !! "name") with (Some (VText n)) by (subst p; by fields).
    rewrite falsy_text by done.
    rewrite run_uuidv4. fold o.
    erewrite run_insert by exact Ho. unfold ret. simpl.
    by rewrite Ho.
Qed.

(** ** Array callbacks *)

Lemma strict_eq_text a s : strict_eq a (Some (VText s)) = true ↔ a = Some (VText s).
Proof.
  destruct a as [[t| | |]|]; simpl; try (split; [done | congruence]).
  rewrite bool_decide_eq_true. split; congruence.
Qed.

Lemma Array_some_false {A} (f : A → option bool) l :
  (∀ x, x ∈ l → f x = Some false) → Array_some f l = Some false.
Proof.
  induction l as [|x l IH]; intros H; [done|]. simpl.
  rewrite (H x) by left. apply IH. intros y Hy. apply H. by right.
Qed.

Lemma Array_some_true {A} (f : A → option bool) l x :
  x ∈ l → f x = Some true → (∀ y, y ∈ l → is_Some (f y)) →
  Array_some f l = Some true.
Proof.
  induction l as [|y l IH]; intros Hin Hx Htot; [by apply elem_of_nil in Hin|].
  simpl. apply elem_of_cons in Hin as [<-|Hin].
  - by rewrite Hx.
  - destruct (Htot y) as [[|] ->]; [left|done|].
    apply IH; [done..|]. intros z Hz. apply Htot. by right.
Qed.

Lemma Array_filter_total {A} (f : A → option bool) (g : A → bool) l :
  (∀ x, x ∈ l → f x = Some (g x)) →
  Array_filter f l = Some (filter (λ x, g x = true) l).
Proof.
  induction l as [|x l IH]; intros H; [done|]. simpl.
  rewrite (H x) by left. rewrite IH by (intros y Hy; apply H; by right).
  rewrite filter_cons. destruct (g x); by simpl.
Qed.

Lemma same_name_and_department_text (p d : obj) N D :
  p !! "name" = Some (VText N) → p !! "department_id" = Some (VText D) →
  same_name_and_department p d =
  Some (bool_decide (d !! "name" = Some (VText N) ∧
                     d !! "department_id" = Some (VText D))).
Proof.
  intros Hn Hd. unfold same_name_and_department, and_then.
  rewrite Hn, Hd. simpl.
  destruct (strict_eq (d !! "name") (Some (VText N))) eqn:E1.
  - apply strict_eq_text in E1.
    destruct (strict_eq (d !! "department_id") (Some (VText D))) eqn:E2.
    + apply strict_eq_text in E2. by rewrite bool_decide_eq_true_2.
    + rewrite bool_decide_eq_false_2; [done|]. intros [_ H%strict_eq_text].
      congruence.
  - rewrite bool_decide_eq_false_2; [done|]. intros [H%strict_eq_text _].
    congruence.
Qed.

Lemma createDoctor_valid P env st :
  valid_doctor P → name_free st P →
  ∃ R, encode Doctor R = Some R ∧
       R !! "id" = Some (VText (uuid env)) ∧
       R !! "owner" = Some (VPrincipal (caller env)) ∧
       R !! "name" = P !! "name" ∧
       R !! "department_id" = P !! "department_id" ∧
       R !! "image" = P !! "image" ∧
       createDoctor P env st = created Doctors R env st.
Proof.
  intros ((n & Hn & Hne) & (d & Hd & Hde) & (i & Hi & Hie)) Hfree.
  set (p := declared CreateDoctorPayload P).
  assert (decode CreateDoctorPayload P = Some p) as Hp.
  { apply encode_Some. split; [|done]. typed. by rewrite Hn, Hd, Hi. }
  assert (p !! "name" = Some (VText n)) as Hpn by (subst p; by fields).
  assert (p !! "department_id" = Some (VText d)) as Hpd by (subst p; by fields).
  assert (p !! "image" = Some (VText i)) as Hpi by (subst p; by fields).
  set (o := <["owner" := VPrincipal (caller env)]>
              (spread {[ "id" := VText (uuid env) ]} p)).
  assert (encode Doctor o = Some (declared Doctor o)) as Ho.
  { apply encode_Some. split; [|done]. subst o p. typed. by rewrite Hn, Hd, Hi. }
  exists (declared Doctor o). split_and!;
    try (subst o p; by fields); [by eapply encode_idemp|].
  unfold createDoctor, update.
  erewrite run_param by exact Hp.
  rewrite Hpn, Hpd, Hpi, !falsy_text by done. cbn [orb].
  rewrite run_values.
  erewrite run_lift.
  2:{ apply Array_some_false. intros x Hx.
      rewrite (same_name_and_department_text _ _ n d) by done.
      rewrite bool_decide_eq_false_2; [done|].
      rewrite <- Hn, <- Hd. revert x Hx. by apply Forall_forall. }
  cbv iota. rewrite run_uuidv4, run_caller. fold o.
  erewrite run_insert by exact Ho. unfold ret. simpl.
  by rewrite Ho.
Qed.

Lemma createPatient_valid P env st :
  valid_patient P →
  ∃ R, encode Patient R = Some R ∧
       R !! "id" = Some (VText (uuid env)) ∧
       R !! "owner" = Some (VPrincipal (caller env)) ∧
       R !! "name" = P !! "name" ∧
       R !! "age" = P !! "age" ∧
       createPatient P env st = created Patients R env st.
Proof.
  intros ((n & Hn & Hne) & (a & Ha & Hlt)).
  set (p := declared CreatePatientPayload P).
  assert (decode CreatePatientPayload P = Some p) as Hp.
  { apply encode_Some. split; [|done]. typed. rewrite Hn, Ha. simpl.
    by rewrite bool_decide_eq_true_2. }
  assert (p !! "name" = Some (VText n)) as Hpn by (subst p; by fields).
  assert (p !! "age" = Some (VNat64 a)) as Hpa by (subst p; by fields).
  set (o := <["owner" := VPrincipal (caller env)]>
              (<["id" := VText (uuid env)]> p)).
  assert (encode Patient o = Some (declared Patient o)) as Ho.
  { apply encode_Some. split; [|done]. subst o p. typed. rewrite Hn, Ha. simpl.
    by rewrite bool_decide_eq_true_2. }
  exists (declared Patient o). split_and!;
    try (subst o p; by fields); [by eapply encode_idemp|].
  unfold createPatient, update.
  erewrite run_param by exact Hp.
  rewrite Hpn, Hpa, falsy_text by done.
  rewrite bool_decide_eq_false_2 by done. cbn [orb].
  rewrite run_uuidv4, run_caller. fold o.
  erewrite run_insert by exact Ho. unfold ret. simpl.
  by rewrite Ho.
Qed.

Lemma createConsultation_valid P env st :
  valid_consultation P →
  ∃ R, encode Consultation R = Some R ∧
       R !! "id" = Some (VText (uuid env)) ∧
       R !! "patient_id" = P !! "patient_id" ∧
       R !! "problem" = P !! "problem" ∧
       R !! "department_id" = P !! "department_id" ∧
       createConsultation P env st = created Consultations R env st.
Proof.
  intros ((a & Ha & Hae) & (b & Hb & Hbe) & (c & Hc & Hce)).
  set (p := declared CreateConsultationPayload P).
  assert (decode CreateConsultationPayload P = Some p) as Hp.
  { apply encode_Some. split; [|done]. typed. by rewrite Ha, Hb, Hc. }
  assert (p !! "patient_id" = Some (VText a)) as Hpa by (subst p; by fields).
  assert (p !! "problem" = Some (VText b)) as Hpb by (subst p; by fields).
  assert (p !! "department_id" = Some (VText c)) as Hpc by (subst p; by fields).
  set (o := <["id" := VText (uuid env)]> p).
  assert (encode Consultation o = Some (declared Consultation o)) as Ho.
  { apply encode_Some. split; [|done]. subst o p. typed. by rewrite Ha, Hb, Hc. }
  exists (declared Consultation o). split_and!;
    try (subst o p; by fields); [by eapply encode_idemp|].
  unfold createConsultation, update.
  erewrite run_param by exact Hp.
  rewrite Hpa, Hpb, Hpc, !falsy_text by done. cbn [orb].
  rewrite run_uuidv4. fold o.
  erewrite run_insert by exact Ho. unfold ret. simpl.
  by rewrite Ho.
Qed.

Lemma createChat_valid P env st :
  valid_chat P →
  ∃ R, encode Chat R = Some R ∧
       R !! "id" = Some (VText (uuid env)) ∧
       R !! "patient_id" = P !! "patient_id" ∧
       R !! "doctor_id" = P !! "doctor_id" ∧
       R !! "message" = P !! "message" ∧
       R !! "timestamp" = P !! "timestamp" ∧
       createChat P env st = created Chats R env st.
Proof.
  intros ((a & Ha & Hae) & (b & Hb & Hbe) & (c & Hc & Hce) & (d & Hd & Hde)).
  set (p := declared CreateChatPayload P).
  assert (decode CreateChatPayload P = Some p) as Hp.
  { apply encode_Some. split; [|done]. typed. by rewrite Ha, Hb, Hc, Hd. }
  assert (p !! "patient_id" = Some (VText a)) as Hpa by (subst p; by fields).
  assert (p !! "doctor_id" = Some (VText b)) as Hpb by (subst p; by fields).
  assert (p !! "message" = Some (VText c)) as Hpc by (subst p; by fields).
  assert (p !! "timestamp" = Some (VText d)) as Hpd by (subst p; by fields).
  set (o := <["id" := VText (uuid env)]> p).
  assert (encode Chat o = Some (declared Chat o)) as Ho.
  { apply encode_Some. split; [|done]. subst o p. typed.
    by rewrite Ha, Hb, Hc, Hd. }
  exists (declared Chat o). split_and!;
    try (subst o p; by fields); [by eapply encode_idemp|].
  unfold createChat, update.
  erewrite run_param by exact Hp.
  rewrite Hpa, Hpb, Hpc, Hpd, !falsy_text by done. cbn [orb].
  rewrite run_uuidv4. fold o.
  erewrite run_insert by exact Ho. unfold ret. simpl.
  by rewrite Ho.
Qed.

(** ** Lookups by id *)

Ltac get_some f :=
  let H := fresh in let HR := fresh in
  intros H HR; unfold f, query; rewrite run_get, H; unfold ret; simpl;
  by rewrite HR.

Ltac get_none f :=
  let H := fresh in
  intros H; unfold f, query; rewrite run_get, H; by unfold ret.

Section by_id.
Context (id : string) (env : Env) (st : State).
Implicit Types R : obj.

Lemma getDepartmentById_Some R :
  contents Departments st !! id = Some R → encode Department R = Some R →
  getDepartmentById id env st = Some (Ok R, st).
Proof. get_some getDepartmentById. Qed.

Lemma getDepartmentById_None :
  contents Departments st !! id = None →
  getDepartmentById id env st =
  Some (Err (NotFound ("Department with id=" +:+ id +:+ " not found")), st).
Proof. get_none getDepartmentById. Qed.

Lemma getDoctorById_Some R :
  contents Doctors st !! id = Some R → encode Doctor R = Some R →
  getDoctorById id env st = Some (Ok R, st).
Proof. get_some getDoctorById. Qed.

Lemma getDoctorById_None :
  contents Doctors st !! id = None →
  getDoctorById id env st =
  Some (Err (NotFound ("Doctor with id=" +:+ id +:+ " not found")), st).
Proof. get_none getDoctorById. Qed.

Lemma getPatientById_Some R :
  contents Patients st !! id = Some R → encode Patient R = Some R →
  getPatientById id env st = Some (Ok R, st).
Proof. get_some getPatientById. Qed.

Lemma getPatientById_None :
  contents Patients st !! id = None →
  getPatientById id env st =
  Some (Err (NotFound ("Patient with id=" +:+ id +:+ " not found")), st).
Proof. get_none getPatientById. Qed.

Lemma getConsultationById_Some R :
  contents Consultations st !! id = Some R → encode Consultation R = Some R →
  getConsultationById id env st = Some (Ok R, st).
Proof. get_some getConsultationById. Qed.

Lemma getChatById_Some R :
  contents Chats st !! id = Some R → encode Chat R = Some R →
  getChatById id env st = Some (Ok R, st).
Proof. get_some getChatById. Qed.

End by_id.

(** ** Creation followed by a lookup *)

Lemma created_lookup m R env st :
  created m R env st = Some (Ok R, <[memoryId m := <[uuid env := R]> (contents m st)]> st) ∧
  contents m (<[memoryId m := <[uuid env := R]> (contents m st)]> st) !! uuid env = Some R.
Proof. split; [done|]. by rewrite contents_insert_eq, lookup_insert_eq. Qed.

(** C1.  For each of the five entity types, creating a record from a valid
    payload (for a doctor: one whose name and department no stored doctor
    has) answers [Ok R], and [getXById(R.id)] on the resulting state answers
    [Ok R] again. *)
Theorem C1_create_then_getById (P : obj) (st : State) :
  (valid_department P → create_then_get createDepartment getDepartmentById P st) ∧
  (valid_doctor P → name_free st P →
     create_then_get createDoctor getDoctorById P st) ∧
  (valid_patient P → create_then_get createPatient getPatientById P st) ∧
  (valid_consultation P →
     create_then_get createConsultation getConsultationById P st) ∧
  (valid_chat P → create_then_get createChat getChatById P st).
Proof.
  split_and!.
  - intros HP env.
    destruct (createDepartment_valid P env st HP) as (R & HR & Hid & _ & ->).
    destruct (created_lookup Departments R env st) as [-> Hl].
    eexists R, _, _. split_and!; [done..|]. intros env'.
    by apply getDepartmentById_Some.
  - intros HP Hfree env.
    destruct (createDoctor_valid P env st HP Hfree)
      as (R & HR & Hid & _ & _ & _ & _ & ->).
    destruct (created_lookup Doctors R env st) as [-> Hl].
    eexists R, _, _. split_and!; [done..|]. intros env'.
    by apply getDoctorById_Some.
  - intros HP env.
    destruct (createPatient_valid P env st HP) as (R & HR & Hid & _ & _ & _ & ->).
    destruct (created_lookup Patients R env st) as [-> Hl].
    eexists R, _, _. split_and!; [done..|]. intros env'.
    by apply getPatientById_Some.
  - intros HP env.
    destruct (createConsultation_valid P env st HP)
      as (R & HR & Hid & _ & _ & _ & ->).
    destruct (created_lookup Consultations R env st) as [-> Hl].
    eexists R, _, _. split_and!; [done..|]. intros env'.
    by apply getConsultationById_Some.
  - intros HP env.
    destruct (createChat_valid P env st HP)
      as (R & HR & Hid & _ & _ & _ & _ & ->).
    destruct (created_lookup Chats R env st) as [-> Hl].
    eexists R, _, _. split_and!; [done..|]. intros env'.
    by apply getChatById_Some.
Qed.

(** ** The uniqueness scan *)

(** C2.  When a stored doctor has the name and the department of the payload,
    [createDoctor] answers [InvalidPayload] and leaves the state as it was,
    whoever calls and whatever the image is. *)
Theorem C2_duplicate_doctor_rejected
    (st : State) (env : Env) (P d : obj) (N D img : string) :
  d ∈ stored Doctors st →
  d !! "name" = Some (VText N) →
  d !! "department_id" = Some (VText D) →
  P !! "name" = Some (VText N) →
  P !! "department_id" = Some (VText D) →
  P !! "image" = Some (VText img) →
  ∃ msg, createDoctor P env st = Some (Err (InvalidPayload msg), st).
Proof.
  intros Hin HdN HdD HN HD Himg.
  set (p := declared CreateDoctorPayload P).
  assert (decode CreateDoctorPayload P = Some p) as Hp.
  { apply encode_Some. split; [|done]. typed. by rewrite HN, HD, Himg. }
  assert (p !! "name" = Some (VText N)) as Hpn by (subst p; by fields).
  assert (p !! "department_id" = Some (VText D)) as Hpd by (subst p; by fields).
  assert (p !! "image" = Some (VText img)) as Hpi by (subst p; by fields).
  unfold createDoctor, update.
  erewrite run_param by exact Hp.
  destruct (falsy (p !! "name") || falsy (p !! "department_id")
            || falsy (p !! "image")) eqn:Hmissing.
  { eexists. by unfold ret. }
  rewrite run_values.
  erewrite run_lift.
  2:{ apply (Array_some_true _ _ d); [done| |].
      - rewrite (same_name_and_department_text _ _ N D) by done.
        by rewrite bool_decide_eq_true_2.
      - intros y _. rewrite (same_name_and_department_text _ _ N D) by done.
        by eexists. }
  eexists. by unfold ret.
Qed.

(** ** Listing a map *)

Lemma stored_empty m st : contents m st = ∅ → stored m st = [].
Proof. unfold stored, items. intros ->. by rewrite map_to_list_empty. Qed.

Lemma stored_created m R env st :
  contents m st = ∅ →
  stored m (<[memoryId m := <[uuid env := R]> (contents m st)]> st) = [R].
Proof.
  intros Hm. unfold stored, items. rewrite contents_insert_eq, Hm, insert_empty.
  by rewrite map_to_list_singleton.
Qed.

Ltac get_all_empty f Hm :=
  intros env; unfold f, query; rewrite run_values, (stored_empty _ _ Hm);
  simpl; by eexists.

Ltac get_all_one f m Hm HR :=
  intros env'; unfold f, query;
  rewrite run_values, (stored_created m _ _ _ Hm);
  unfold ret; simpl; by rewrite HR.

(** C3.  For each of the five entity types: [getAllX] on an empty map answers
    [NotFound], and after exactly one record has been created it answers the
    one-element list holding that record. *)
Theorem C3_getAll_empty_and_singleton :
  getAll_policy Departments valid_department createDepartment getAllDepartments ∧
  getAll_policy Doctors valid_doctor createDoctor getAllDoctors ∧
  getAll_policy Patients valid_patient createPatient getAllPatients ∧
  getAll_policy Consultations valid_consultation createConsultation
    getAllConsultations ∧
  getAll_policy Chats valid_chat createChat getAllChats.
Proof.
  split_and!; intros st Hm; (split; [|intros P env HP]).
  - get_all_empty getAllDepartments Hm.
  - destruct (createDepartment_valid P env st HP) as (R & HR & _ & _ & ->).
    eexists R, _. split; [done|]. get_all_one getAllDepartments Departments Hm HR.
  - get_all_empty getAllDoctors Hm.
  - assert (name_free st P) as Hfree.
    { unfold name_free. rewrite (stored_empty _ _ Hm). constructor. }
    destruct (createDoctor_valid P env st HP Hfree)
      as (R & HR & _ & _ & _ & _ & _ & ->).
    eexists R, _. split; [done|]. get_all_one getAllDoctors Doctors Hm HR.
  - get_all_empty getAllPatients Hm.
  - destruct (createPatient_valid P env st HP) as (R & HR & _ & _ & _ & _ & ->).
    eexists R, _. split; [done|]. get_all_one getAllPatients Patients Hm HR.
  - get_all_empty getAllConsultations Hm.
  - destruct (createConsultation_valid P env st HP)
      as (R & HR & _ & _ & _ & _ & ->).
    eexists R, _. split; [done|].
    get_all_one getAllConsultations Consultations Hm HR.
  - get_all_empty getAllChats Hm.
  - destruct (createChat_valid P env st HP)
      as (R & HR & _ & _ & _ & _ & _ & ->).
    eexists R, _. split; [done|]. get_all_one getAllChats Chats Hm HR.
Qed.

(** ** Deletion *)

Ltac delete_absent f :=
  let H := fresh in
  intros H; unfold f, update; rewrite run_get, H; unfold ret; simpl;
  by eexists.

Ltac delete_present f g m :=
  let r := fresh "r" in
  let H := fresh in
  intros r H;
  eexists _, (<[memoryId m := delete _ (contents m _)]> _);
  split_and!;
  [ unfold f, update; rewrite run_get, H, run_remove; by unfold ret
  | by rewrite contents_insert_eq, lookup_delete_eq
  | intros k Hk; by rewrite contents_insert_eq, lookup_delete_ne
  | intros i Hi; by rewrite lookup_insert_ne
  | intros env'; unfold g, query;
    rewrite run_get, contents_insert_eq, lookup_delete_eq; unfold ret; simpl;
    by eexists
  | intros env'; unfold f, update;
    rewrite run_get, contents_insert_eq, lookup_delete_eq; unfold ret; simpl;
    by eexists ].

(** C6.  Deleting a department, a doctor or a patient by a stored id removes
    that record and nothing else, in that map or any other; afterwards the
    lookup of the id and a second deletion answer [NotFound], as does the
    deletion of an id that is not stored. *)
Theorem C6_delete_removes_exactly_one :
  delete_spec Departments deleteDepartment getDepartmentById ∧
  delete_spec Doctors deleteDoctor getDoctorById ∧
  delete_spec Patients deletePatient getPatientById.
Proof.
  split_and!; intros id env st; split.
  - delete_present deleteDepartment getDepartmentById Departments.
  - delete_absent deleteDepartment.
  - delete_present deleteDoctor getDoctorById Doctors.
  - delete_absent deleteDoctor.
  - delete_present deletePatient getPatientById Patients.
  - delete_absent deletePatient.
Qed.

(** ** Lookups by owner *)

Lemma owned_byb_spec c d : owned_byb c d = true ↔ owned_by c d.
Proof.
  unfold owned_byb, owned_by. split.
  - destruct (d !! "owner") as [[| p | |]|]; try done.
    intros H%bool_decide_eq_true. by exists p.
  - intros (p & -> & H). by apply bool_decide_eq_true.
Qed.

Lemma owner_is_typed T c d :
  ("owner", Candid.Principal) ∈ T → encode T d = Some d →
  owner_is c d = Some (owned_byb c d).
Proof.
  intros HT Hd. destruct (encode_field T d d "owner" _ Hd HT) as (v & Hv & _ & Ht).
  unfold owner_is, owned_byb. rewrite Hv.
  destruct v as [| p | |]; try done.
Qed.

Lemma filter_none {A} (P : A → Prop) `{∀ x, Decision (P x)} (l : list A) :
  Forall (λ x, ¬ P x) l → filter P l = [].
Proof.
  induction 1 as [|x l Hx _ IH]; [done|]. by rewrite filter_cons_False.
Qed.

Lemma filter_first {A} (P : A → Prop) `{∀ x, Decision (P x)} (pre post : list A) x :
  Forall (λ y, ¬ P y) pre → P x →
  filter P (pre ++ x :: post)%list = x :: filter P post.
Proof.
  intros Hpre Hx. rewrite filter_app, (filter_none _ _ Hpre).
  by rewrite filter_cons_True.
Qed.

Lemma owner_scan m env st :
  ("owner", Candid.Principal) ∈ valueType m → wf m st →
  Array_filter (owner_is (caller env)) (stored m st) =
  Some (filter (λ d, owned_byb (caller env) d = true) (stored m st)).
Proof.
  intros HT Hwf. apply Array_filter_total. intros d Hd.
  apply (owner_is_typed (valueType m)); [done|]. by apply (wf_stored m st).
Qed.

Lemma owner_scan_none m env st :
  Forall (λ d, ¬ owned_by (caller env) d) (stored m st) →
  filter (λ d, owned_byb (caller env) d = true) (stored m st) = [].
Proof.
  intros H. apply filter_none. eapply Forall_impl; [exact H|].
  intros d Hd. by rewrite owned_byb_spec.
Qed.

Lemma owner_scan_first m env st d :
  first_owned (caller env) (stored m st) d →
  ∃ rest, filter (λ d, owned_byb (caller env) d = true) (stored m st) = d :: rest.
Proof.
  intros (pre & post & -> & Hd & Hpre). eexists. apply filter_first.
  - eapply Forall_impl; [exact Hpre|]. intros x Hx. by rewrite owned_byb_spec.
  - by apply owned_byb_spec.
Qed.

Lemma first_owned_stored c l d : first_owned c l d → d ∈ l.
Proof. intros (pre & post & -> & _). apply elem_of_app. right. left. Qed.

(** The head of the scan is the first stored record that the caller owns,
    and the one under the least key. *)
Lemma owner_scan_head m env st d rest :
  filter (λ d, owned_byb (caller env) d = true) (stored m st) = d :: rest →
  first_owned (caller env) (stored m st) d ∧ least_owned (caller env) m st d.
Proof.
  intros Hf. split.
  - destruct (filter_head_inv _ _ _ _ Hf) as (pre & post & Hl & Hpre & Hd).
    exists pre, post. split_and!; [done | by apply owned_byb_spec |].
    eapply Forall_impl; [exact Hpre|]. intros x Hx. by rewrite <- owned_byb_spec.
  - destruct (sorted_filter_head _ (items m st) d rest (items_sorted m st) Hf)
      as (k & Hk & Hleast).
    assert (d ∈ filter (λ d, owned_byb (caller env) d = true) (stored m st))
      as [Hd _]%list_elem_of_filter by (rewrite Hf; left).
    exists k. split_and!.
    + by apply items_elem_of.
    + by apply owned_byb_spec.
    + intros k' d' Hk' Hd'. apply (Hleast k' d').
      * by apply items_elem_of.
      * by apply owned_byb_spec.
Qed.

Ltac by_owner_answer getByOwner m T :=
  let d := fresh "d" in
  let d0 := fresh "d0" in
  let rest := fresh "rest" in
  let Hget := fresh "Hget" in
  let Hf := fresh "Hf" in
  let He := fresh "He" in
  let Hfirst := fresh "Hfirst" in
  let Hleast := fresh "Hleast" in
  intros d Hget; unfold getByOwner, query in Hget;
  rewrite run_values, run_caller in Hget;
  erewrite run_lift in Hget by (apply (owner_scan m); [compute_done|done]);
  match type of Hget with
  | context [filter ?P (stored m ?st)] =>
      destruct (filter P (stored m st)) as [|d0 rest] eqn:Hf; [done|]
  end;
  pose proof (owner_scan_head m _ _ _ _ Hf) as [Hfirst Hleast];
  match goal with
  | Hwf : wf m ?st |- _ =>
      pose proof (wf_stored m st _ Hwf (first_owned_stored _ _ _ Hfirst)) as He
  end;
  change (encode T d0 = Some d0) in He;
  unfold ret in Hget; simpl in Hget; rewrite He in Hget; simpl in Hget;
  injection Hget as <-; by split.

(** C7.  [getDoctorByOwner] and [getPatientByOwner] answer [NotFound] when no
    stored record's owner has the caller's textual form, and otherwise the
    first such record in the order of [values()], which is the order of the
    serialised keys: one record, not a list, and always the caller's record
    under the least key. *)
Theorem C7_byOwner_first_match :
  byOwner_spec Doctors getDoctorByOwner ∧
  byOwner_spec Patients getPatientByOwner.
Proof.
  split; intros env st Hwf; split_and!.
  3: by_owner_answer getDoctorByOwner Doctors Doctor.
  5: by_owner_answer getPatientByOwner Patients Patient.
  - intros Hnone. unfold getDoctorByOwner, query.
    rewrite run_values, run_caller.
    erewrite run_lift by (apply (owner_scan Doctors env st); [compute_done|done]).
    rewrite (owner_scan_none _ _ _ Hnone). by eexists.
  - intros d Hd. unfold getDoctorByOwner, query.
    rewrite run_values, run_caller.
    erewrite run_lift by (apply (owner_scan Doctors env st); [compute_done|done]).
    destruct (owner_scan_first _ _ _ _ Hd) as [rest ->].
    pose proof (wf_stored Doctors st d Hwf (first_owned_stored _ _ _ Hd)) as He.
    change (encode Doctor d = Some d) in He.
    unfold ret. simpl. by rewrite He.
  - intros Hnone. unfold getPatientByOwner, query.
    rewrite run_values, run_caller.
    erewrite run_lift by (apply (owner_scan Patients env st); [compute_done|done]).
    rewrite (owner_scan_none _ _ _ Hnone). by eexists.
  - intros d Hd. unfold getPatientByOwner, query.
    rewrite run_values, run_caller.
    erewrite run_lift by (apply (owner_scan Patients env st); [compute_done|done]).
    destruct (owner_scan_first _ _ _ _ Hd) as [rest ->].
    pose proof (wf_stored Patients st d Hwf (first_owned_stored _ _ _ Hd)) as He.
    change (encode Patient d = Some d) in He.
    unfold ret. simpl. by rewrite He.
Qed.

(** ** Independence from the caller *)

(** C10.  The id-addressed updates and deletions answer the same result and
    leave the same state whatever the caller's identity is; so Bob, who owns
    no doctor, deletes the doctor that Alice owns. *)
Theorem C10_mutations_ignore_caller
    (env1 env2 : Env) (st : State) (id : string) (payload : obj) (b : bool) :
  updateDoctor id payload env1 st = updateDoctor id payload env2 st ∧
  updatePatient id payload env1 st = updatePatient id payload env2 st ∧
  updateDoctorAvailability id b env1 st = updateDoctorAvailability id b env2 st ∧
  deleteDoctor id env1 st = deleteDoctor id env2 st ∧
  deletePatient id env1 st = deletePatient id env2 st ∧
  deleteDepartment id env1 st = deleteDepartment id env2 st ∧
  (owned_by alice john ∧ ¬ owned_by bob john ∧
   ∃ msg st', deleteDoctor "doc-1" as_bob clinic = Some (Ok (Success msg), st') ∧
              contents Doctors st' !! "doc-1" = None).
Proof.
  split_and!; [..| by exists alice | rewrite <- owned_byb_spec; by vm_compute |].
  7:{ exists "Doctor with id=doc-1 deleted successfully",
             (<[1 := delete "doc-1" (contents Doctors clinic)]> clinic).
      split; compute_done. }
  - unfold updateDoctor, update, bind, param, lift, Stable.get, Stable.insert, ret.
    destruct (decode CreateDoctorPayload payload); [|reflexivity].
    by destruct (contents Doctors st !! id).
  - unfold updatePatient, update, bind, param, lift, Stable.get, Stable.insert, ret.
    destruct (decode CreatePatientPayload payload); [|reflexivity].
    by destruct (contents Patients st !! id).
  - unfold updateDoctorAvailability, update, bind, Stable.get, Stable.insert, ret.
    by destruct (contents Doctors st !! id).
  - unfold deleteDoctor, update, bind, Stable.get, Stable.remove, ret.
    by destruct (contents Doctors st !! id).
  - unfold deletePatient, update, bind, Stable.get, Stable.remove, ret.
    by destruct (contents Patients st !! id).
  - unfold deleteDepartment, update, bind, Stable.get, Stable.remove, ret.
    by destruct (contents Departments st !! id).
Qed.

(** ** Search by name *)



(** Lower-casing ASCII text, character by character. *)
Lemma ascii_eq_nat a b : a = b ↔ Ascii.nat_of_ascii a = Ascii.nat_of_ascii b.
Proof.
  split; [by intros ->|]. intros H.
  rewrite <- (Ascii.ascii_nat_embedding a), <- (Ascii.ascii_nat_embedding b).
  by rewrite H.
Qed.

Lemma nat_of_lower a :
  Ascii.nat_of_ascii (lower a) =
  if (65 <=? Ascii.nat_of_ascii a)%nat && (Ascii.nat_of_ascii a <=? 90)%nat
  then (Ascii.nat_of_ascii a + 32)%nat else Ascii.nat_of_ascii a.
Proof.
  unfold lower.
  destruct ((65 <=? Ascii.nat_of_ascii a)%nat && (Ascii.nat_of_ascii a <=? 90)%nat)
    eqn:Hup; [|done].
  apply andb_true_iff in Hup as [H1%Nat.leb_le H2%Nat.leb_le].
  apply Ascii.nat_ascii_embedding. lia.
Qed.

Lemma lower_same_letter a b : lower a = lower b ↔ same_letter a b.
Proof.
  rewrite (ascii_eq_nat (lower a)), !nat_of_lower.
  unfold same_letter. rewrite (ascii_eq_nat a b).
  destruct (Nat.leb_spec 65 (Ascii.nat_of_ascii a)),
           (Nat.leb_spec (Ascii.nat_of_ascii a) 90),
           (Nat.leb_spec 65 (Ascii.nat_of_ascii b)),
           (Nat.leb_spec (Ascii.nat_of_ascii b) 90); cbn [andb];
    (split;
     [ intros E;
       first [ left; lia
             | right; exists (Ascii.nat_of_ascii a); lia
             | right; exists (Ascii.nat_of_ascii b); lia ]
     | intros [E|(n & Hn & [[Hna Hnb]|[Hnb Hna]])]; lia ]).
Qed.

Lemma ascii_lower_same_letters s t :
  ascii_lower s = ascii_lower t ↔ same_letters s t.
Proof.
  revert t. induction s as [|a s IH]; intros [|b t]; simpl; try done.
  rewrite <- IH, <- lower_same_letter. split.
  - by intros [= ? ?].
  - by intros [-> ->].
Qed.




Lemma Array_filter_ext {A} (f g : A → option bool) (l : list A) :
  Forall (λ x, f x = g x) l → Array_filter f l = Array_filter g l.
Proof. induction 1 as [|x l Hx _ IH]; [done|]. simpl. by rewrite Hx, IH. Qed.

Section search.
Context {U : Unicode}.


Lemma name_matches_typed T s d :
  ("name", Candid.text) ∈ T → encode T d = Some d →
  name_matches s d = Some (name_containsb s d).
Proof.
  intros HT Hd. destruct (encode_field T d d "name" _ Hd HT) as (v & Hv & _ & Ht).
  unfold name_matches, name_containsb. rewrite Hv.
  destruct v as [n | | |]; try done.
Qed.

Lemma Vec_conforms T (l : list obj) :
  Forall (λ d, encode T d = Some d) l → Vec T l = Some l.
Proof.
  unfold Vec. induction 1 as [|d l Hd _ IH]; [done|].
  simpl. rewrite Hd. simpl. by rewrite IH.
Qed.

Lemma name_scan m s st :
  ("name", Candid.text) ∈ valueType m → wf m st →
  Array_filter (name_matches s) (stored m st) =
  Some (filter (λ d, name_containsb s d = true) (stored m st)).
Proof.
  intros HT Hwf. apply Array_filter_total. intros d Hd.
  apply (name_matches_typed (valueType m)); [done|]. by apply (wf_stored m st).
Qed.

Lemma name_scan_conforms m s st :
  wf m st →
  Vec (valueType m) (filter (λ d, name_containsb s d = true) (stored m st)) =
  Some (filter (λ d, name_containsb s d = true) (stored m st)).
Proof.
  intros Hwf. apply Vec_conforms, Forall_forall.
  intros d [_ Hd]%list_elem_of_filter. by apply (wf_stored m st).
Qed.






Lemma name_matches_ascii s d :
  is_ascii s = true → ascii_name d = true →
  name_matches s d = name_matches (U := ascii_engine) s d.
Proof.
  intros Hs Hd. unfold name_matches, call_toLowerCase, ascii_name in *.
  destruct (d !! "name") as [[n| | |]|]; try done. simpl.
  rewrite ?toLowerCase_ascii by done. by rewrite ?Hs, ?Hd.
Qed.


Lemma searchDepartmentByName_ascii s env st :
  is_ascii s = true → forallb ascii_name (stored Departments st) = true →
  searchDepartmentByName s env st =
  searchDepartmentByName (U := ascii_engine) s env st.
Proof.
  intros Hs Hall. unfold searchDepartmentByName, query. rewrite !run_values.
  rewrite (Array_filter_ext (name_matches s)
             (name_matches (U := ascii_engine) s)); [done|].
  apply Forall_forall. intros d Hd. apply name_matches_ascii; [done|].
  rewrite forallb_forall in Hall. by apply Hall, list_elem_of_In.
Qed.


End search.

(** ** Updates *)

Lemma spread_lookup_declared Tp (r p P : obj) k :
  decode Tp P = Some p → k ∈ Tp.*1 → spread r p !! k = P !! k.
Proof.
  intros Hp Hk. unfold spread. rewrite lookup_union.
  rewrite (encode_lookup_in _ _ _ _ Hp Hk).
  apply list_elem_of_fmap in Hk as ([k' t] & Hk & Hin). simpl in Hk. subst k.
  destruct (encode_field _ _ _ _ _ Hp Hin) as (v & -> & _).
  by destruct (r !! k').
Qed.

Lemma spread_lookup_other Tp (r p P : obj) k :
  decode Tp P = Some p → k ∉ Tp.*1 → spread r p !! k = r !! k.
Proof.
  intros Hp Hk. unfold spread. rewrite lookup_union.
  rewrite (encode_lookup_notin _ _ _ _ Hp Hk). by destruct (r !! k).
Qed.

Lemma field_type_unique (T : RecordType) k t t' :
  NoDup T.*1 → (k, t) ∈ T → (k, t') ∈ T → t = t'.
Proof.
  intros Hnd H1 H2.
  pose proof (elem_of_list_to_map_1 (M := gmap string) T k t Hnd H1) as E1.
  pose proof (elem_of_list_to_map_1 (M := gmap string) T k t' Hnd H2) as E2.
  congruence.
Qed.

(** Merging a decoded payload into a stored record gives a record of the
    stored type again, when the payload type declares a part of its fields. *)
Lemma spread_conforms T Tp (r p P : obj) :
  NoDup T.*1 → Tp ⊆ T →
  encode T r = Some r → decode Tp P = Some p →
  encode T (spread r p) = Some (spread r p).
Proof.
  intros Hnd Hsub Hr Hp. apply encode_exact.
  - apply forallb_field_ok. intros k t Hin.
    destruct (decide (k ∈ Tp.*1)) as [Hk|Hk].
    + rewrite (spread_lookup_declared _ _ _ _ _ Hp Hk).
      apply list_elem_of_fmap in Hk as ([k' t'] & Hk & Hin').
      simpl in Hk. subst k.
      destruct (encode_field _ _ _ _ _ Hp Hin') as (v & Hv & _ & Ht).
      exists v. split; [done|].
      by rewrite (field_type_unique T k' t t' Hnd Hin (Hsub _ Hin')).
    + rewrite (spread_lookup_other _ _ _ _ _ Hp Hk).
      destruct (encode_field _ _ _ _ _ Hr Hin) as (v & Hv & _ & Ht). eauto.
  - intros k Hk.
    assert (k ∉ Tp.*1) as Hk'.
    { intros ([k' t] & Hk' & Hin)%list_elem_of_fmap. simpl in Hk'. subst k.
      apply Hk.
      apply list_elem_of_fmap. exists (k', t). split; [done|]. by apply Hsub. }
    rewrite (spread_lookup_other _ _ _ _ _ Hp Hk').
    by apply (encode_lookup_notin T r).
Qed.

Lemma Doctor_NoDup : NoDup Doctor.*1.
Proof. compute_done. Qed.

Lemma Patient_NoDup : NoDup Patient.*1.
Proof. compute_done. Qed.

Lemma CreateDoctorPayload_sub : CreateDoctorPayload ⊆ Doctor.
Proof.
  unfold CreateDoctorPayload, Doctor. intros x Hx.
  rewrite !elem_of_cons in Hx. rewrite !elem_of_cons. tauto.
Qed.

Lemma CreatePatientPayload_sub : CreatePatientPayload ⊆ Patient.
Proof.
  unfold CreatePatientPayload, Patient. intros x Hx.
  rewrite !elem_of_cons in Hx. rewrite !elem_of_cons. tauto.
Qed.

Lemma updateDoctor_run id payload p r env st :
  contents Doctors st !! id = Some r → encode Doctor r = Some r →
  decode CreateDoctorPayload payload = Some p →
  updateDoctor id payload env st =
  Some (Ok (spread r p), <[1 := <[id := spread r p]> (contents Doctors st)]> st).
Proof.
  intros Hid Hr Hp.
  assert (encode Doctor (spread r p) = Some (spread r p)) as Hm.
  { apply (spread_conforms Doctor CreateDoctorPayload r p payload);
      [apply Doctor_NoDup | apply CreateDoctorPayload_sub | done..]. }
  unfold updateDoctor, update.
  erewrite run_param by exact Hp. rewrite run_get, Hid.
  erewrite run_insert by exact Hm. unfold ret. simpl. by rewrite Hm.
Qed.

Lemma updatePatient_run id payload p r env st :
  contents Patients st !! id = Some r → encode Patient r = Some r →
  decode CreatePatientPayload payload = Some p →
  updatePatient id payload env st =
  Some (Ok (spread r p), <[2 := <[id := spread r p]> (contents Patients st)]> st).
Proof.
  intros Hid Hr Hp.
  assert (encode Patient (spread r p) = Some (spread r p)) as Hm.
  { apply (spread_conforms Patient CreatePatientPayload r p payload);
      [apply Patient_NoDup | apply CreatePatientPayload_sub | done..]. }
  unfold updatePatient, update.
  erewrite run_param by exact Hp. rewrite run_get, Hid.
  erewrite run_insert by exact Hm. unfold ret. simpl. by rewrite Hm.
Qed.

(** What a successful update did, on any state. *)
Lemma updateDoctor_inv id payload r env st R st' :
  contents Doctors st !! id = Some r →
  updateDoctor id payload env st = Some (Ok R, st') →
  ∃ p, decode CreateDoctorPayload payload = Some p ∧
       encode Doctor (spread r p) = Some R ∧
       st' = <[1 := <[id := R]> (contents Doctors st)]> st.
Proof.
  intros Hid. unfold updateDoctor, update.
  destruct (decode CreateDoctorPayload payload) as [p|] eqn:Hp.
  2:{ by erewrite run_param_None. }
  erewrite run_param by exact Hp. rewrite run_get, Hid.
  destruct (encode Doctor (spread r p)) as [R'|] eqn:Hm.
  2:{ by erewrite run_insert_None. }
  erewrite run_insert by exact Hm. unfold ret. simpl. rewrite Hm. simpl.
  intros [= <- <-]. by exists p.
Qed.

Lemma updatePatient_inv id payload r env st R st' :
  contents Patients st !! id = Some r →
  updatePatient id payload env st = Some (Ok R, st') →
  ∃ p, decode CreatePatientPayload payload = Some p ∧
       encode Patient (spread r p) = Some R ∧
       st' = <[2 := <[id := R]> (contents Patients st)]> st.
Proof.
  intros Hid. unfold updatePatient, update.
  destruct (decode CreatePatientPayload payload) as [p|] eqn:Hp.
  2:{ by erewrite run_param_None. }
  erewrite run_param by exact Hp. rewrite run_get, Hid.
  destruct (encode Patient (spread r p)) as [R'|] eqn:Hm.
  2:{ by erewrite run_insert_None. }
  erewrite run_insert by exact Hm. unfold ret. simpl. rewrite Hm. simpl.
  intros [= <- <-]. by exists p.
Qed.

(** C4 (amended).  [updatePatient] and [updateDoctor] overwrite exactly the
    fields of the declared payload type ([name], [age]; resp. [name],
    [department_id], [image]) with the payload's values and keep every other
    field ([id], [owner]) of the stored record, under the same id; an absent
    id answers [NotFound]; a payload lacking a declared field is rejected. *)
Theorem C4_update_merges_declared_fields :
  update_spec Patients CreatePatientPayload updatePatient ∧
  update_spec Doctors CreateDoctorPayload updateDoctor.
Proof.
  split; intros id payload env st Hwf; split_and!.
  - intros r Hid [p Hp].
    pose proof (wf_lookup _ _ _ _ Hwf Hid) as Hr.
    exists (spread r p). split_and!.
    + by apply updatePatient_run.
    + intros k Hk. by apply (spread_lookup_declared CreatePatientPayload).
    + intros k Hk. by apply (spread_lookup_other CreatePatientPayload _ _ payload).
  - intros Hid [p Hp]. unfold updatePatient, update.
    erewrite run_param by exact Hp. rewrite run_get, Hid. by eexists.
  - intros Hp. unfold updatePatient, update. by erewrite run_param_None.
  - intros r Hid [p Hp].
    pose proof (wf_lookup _ _ _ _ Hwf Hid) as Hr.
    exists (spread r p). split_and!.
    + by apply updateDoctor_run.
    + intros k Hk. by apply (spread_lookup_declared CreateDoctorPayload).
    + intros k Hk. by apply (spread_lookup_other CreateDoctorPayload _ _ payload).
  - intros Hid [p Hp]. unfold updateDoctor, update.
    erewrite run_param by exact Hp. rewrite run_get, Hid. by eexists.
  - intros Hp. unfold updateDoctor, update. by erewrite run_param_None.
Qed.

(** C4, as stated, fails: [updatePatient(id, {age: 40})] on a stored patient
    returns no record at all, the payload type requiring [name]. *)
Lemma C4_age_only_payload_rejected :
  contents Patients clinic !! "pat-1" = Some ann ∧
  updatePatient "pat-1" age_only as_bob clinic = None ∧
  ¬ ∃ R st',
      updatePatient "pat-1" age_only as_bob clinic = Some (Ok R, st') ∧
      R !! "name" = ann !! "name" ∧ R !! "owner" = ann !! "owner" ∧
      R !! "age" = Some (VNat64 40).
Proof.
  assert (updatePatient "pat-1" age_only as_bob clinic = None) as Hrun.
  { unfold updatePatient, update. erewrite run_param_None; [done|].
    apply encode_None. compute_done. }
  split_and!; [compute_done | exact Hrun |].
  intros (R & st' & H & _). rewrite Hrun in H. discriminate.
Qed.

(** The owner of the record that an update of a doctor returns. *)
Lemma updateDoctor_owner id payload r env st R st' :
  contents Doctors st !! id = Some r →
  updateDoctor id payload env st = Some (Ok R, st') →
  R !! "owner" = r !! "owner" ∧ contents Doctors st' !! id = Some R.
Proof.
  intros Hid Hrun.
  destruct (updateDoctor_inv _ _ _ _ _ _ _ Hid Hrun) as (p & Hp & Hm & ->).
  split; [|by rewrite (contents_insert_eq Doctors), lookup_insert_eq].
  rewrite (encode_lookup_in _ _ _ "owner" Hm) by compute_done.
  apply (spread_lookup_other CreateDoctorPayload _ _ payload); [done|].
  compute_done.
Qed.

Lemma updatePatient_owner id payload r env st R st' :
  contents Patients st !! id = Some r →
  updatePatient id payload env st = Some (Ok R, st') →
  R !! "owner" = r !! "owner" ∧ contents Patients st' !! id = Some R.
Proof.
  intros Hid Hrun.
  destruct (updatePatient_inv _ _ _ _ _ _ _ Hid Hrun) as (p & Hp & Hm & ->).
  split; [|by rewrite (contents_insert_eq Patients), lookup_insert_eq].
  rewrite (encode_lookup_in _ _ _ "owner" Hm) by compute_done.
  apply (spread_lookup_other CreatePatientPayload _ _ payload); [done|].
  compute_done.
Qed.

(** C5 (amended).  Whatever the payload holds, an [owner] field included,
    [updateDoctor] and [updatePatient] return and store a record with the
    owner that the stored record had. *)
Theorem C5_update_keeps_owner :
  keeps_owner Doctors CreateDoctorPayload updateDoctor ∧
  keeps_owner Patients CreatePatientPayload updatePatient.
Proof.
  split; intros id payload env st r Hid; split.
  - intros R st' Hrun. by apply (updateDoctor_owner id payload r env st).
  - intros Hwf [p Hp]. eexists _, _.
    apply updateDoctor_run; [done | by apply (wf_lookup Doctors st id) | done].
  - intros R st' Hrun. by apply (updatePatient_owner id payload r env st).
  - intros Hwf [p Hp]. eexists _, _.
    apply updatePatient_run; [done | by apply (wf_lookup Patients st id) | done].
Qed.

(** C5, as stated, fails: no payload with an [owner] field makes an update
    store that owner in place of a different one. *)
Lemma C5_no_payload_overwrites_owner :
  ¬ ∃ id payload env st (r : obj) o R st' S,
      payload !! "owner" = Some o ∧ r !! "owner" ≠ Some o ∧
      S !! "owner" = Some o ∧
      ((contents Doctors st !! id = Some r ∧
        updateDoctor id payload env st = Some (Ok R, st') ∧
        contents Doctors st' !! id = Some S) ∨
       (contents Patients st !! id = Some r ∧
        updatePatient id payload env st = Some (Ok R, st') ∧
        contents Patients st' !! id = Some S)).
Proof.
  intros (id & payload & env & st & r & o & R & st' & S & _ & Hne & HS & H).
  destruct H as [(Hid & Hrun & Hst) | (Hid & Hrun & Hst)].
  - destruct (updateDoctor_owner _ _ _ _ _ _ _ Hid Hrun) as [Ho Hst'].
    congruence.
  - destruct (updatePatient_owner _ _ _ _ _ _ _ Hid Hrun) as [Ho Hst'].
    congruence.
Qed.

(** ** The availability update *)

Lemma encode_insert_undeclared T (r : obj) k v :
  k ∉ T.*1 → encode T (<[k := v]> r) = encode T r.
Proof.
  intros Hk.
  assert (∀ k', k' ∈ T.*1 → <[k := v]> r !! k' = r !! k') as Hsame.
  { intros k' Hk'. apply lookup_insert_ne. congruence. }
  unfold encode. rewrite (field_ok_ext T r _ Hsame).
  destruct (forallb (field_ok r) T); [|done]. f_equal.
  apply map_eq. intros k'. rewrite !declared_lookup.
  case_decide; [by apply Hsame | done].
Qed.

Lemma insert_same m (st : State) id (r : obj) :
  contents m st !! id = Some r →
  <[memoryId m := <[id := r]> (contents m st)]> st = st.
Proof.
  unfold contents. destruct (st !! memoryId m) as [c|] eqn:E; simpl.
  - intros H. rewrite (insert_id c id r H). by apply insert_id.
  - by rewrite lookup_empty.
Qed.

(** C9.  What [updateDoctorAvailability] does on a well-formed map: the
    record built with [available] is serialised with the [Doctor] type, which
    has no such field, so for a stored id the answer is the stored record as
    it was, without [available], and the state is as it was; for an id that
    is not stored the answer is [NotFound] and the state is as it was. *)
Theorem C9_availability_is_dropped (id : string) (b : bool) (env : Env) (st : State) :
  wf Doctors st →
  (∀ r, contents Doctors st !! id = Some r →
     updateDoctorAvailability id b env st = Some (Ok r, st) ∧
     r !! "available" = None) ∧
  (contents Doctors st !! id = None →
     ∃ msg, updateDoctorAvailability id b env st = Some (Err (NotFound msg), st)).
Proof.
  intros Hwf. split.
  - intros r Hid. pose proof (wf_lookup _ _ _ _ Hwf Hid) as Hr.
    change (encode Doctor r = Some r) in Hr.
    assert (encode Doctor (<["available" := VBool b]> r) = Some r) as Hm.
    { rewrite encode_insert_undeclared; [done|]. compute_done. }
    split.
    + unfold updateDoctorAvailability, update. rewrite run_get, Hid.
      erewrite run_insert by exact Hm. unfold ret. simpl. rewrite Hm. simpl.
      pose proof (insert_same Doctors st id r Hid) as Hst.
      change (memoryId Doctors) with 1 in Hst. by rewrite Hst.
    + apply (encode_lookup_notin Doctor r r); [done|]. compute_done.
  - intros Hid. unfold updateDoctorAvailability, update.
    rewrite run_get, Hid. by eexists.
Qed.

(** ** The invariant *)

Lemma wf_insert_same m k (v : obj) st :
  wf m st → encode (valueType m) v = Some v →
  wf m (<[memoryId m := <[k := v]> (contents m st)]> st).
Proof.
  intros Hwf Hv. unfold wf. rewrite contents_insert_eq.
  by apply map_Forall_insert_2.
Qed.

Lemma wf_remove_same m k st :
  wf m st → wf m (<[memoryId m := delete k (contents m st)]> st).
Proof.
  intros Hwf. unfold wf. rewrite contents_insert_eq.
  by apply map_Forall_delete.
Qed.

Lemma wf_other m m' c st :
  memoryId m ≠ memoryId m' → wf m' st → wf m' (<[memoryId m := c]> st).
Proof. intros Hne Hwf. unfold wf. by rewrite contents_insert_ne. Qed.

Lemma wf_state_empty : wf_state ∅.
Proof.
  repeat split; unfold wf; rewrite contents_empty; apply map_Forall_empty.
Qed.

Section preserves.
Context {A B : Type}.

Lemma preserves_ret (a : A) : preserves (ret a).
Proof. by intros env st a' st' [= _ <-]. Qed.

Lemma preserves_lift (o : option A) : preserves (lift o).
Proof. intros env st a st'. unfold lift. destruct o; [|done]. by intros [= _ <-]. Qed.

Lemma preserves_bind (c : M A) (k : A → M B) :
  preserves c → (∀ a, preserves (k a)) → preserves (bind c k).
Proof.
  intros Hc Hk env st b st'. unfold bind.
  destruct (c env st) as [[a st1]|] eqn:E; [|done].
  intros Hrun Hwf. eapply Hk; [exact Hrun|]. by eapply Hc.
Qed.

Lemma preserves_update (R : A → option A) (c : M A) :
  preserves c → preserves (update R c).
Proof.
  intros Hc env st a st'. unfold update.
  destruct (c env st) as [[r st1]|] eqn:E; [|done].
  destruct (R r); [|done]. intros [= _ <-]. by eapply Hc.
Qed.

Lemma preserves_query (R : A → option A) (c : M A) : preserves (query R c).
Proof.
  intros env st a st'. unfold query.
  destruct (c env st) as [[r st1]|]; [|done].
  destruct (R r); [|done]. by intros [= _ <-].
Qed.

End preserves.

Lemma preserves_uuidv4 : preserves uuidv4.
Proof. by intros env st a st' [= _ <-]. Qed.

Lemma preserves_caller : preserves ic_caller.
Proof. by intros env st a st' [= _ <-]. Qed.

Lemma preserves_param T raw : preserves (param T raw).
Proof. apply preserves_lift. Qed.

Lemma preserves_get m k : preserves (Stable.get m k).
Proof. by intros env st a st' [= _ <-]. Qed.

Lemma preserves_values m : preserves (Stable.values m).
Proof. by intros env st a st' [= _ <-]. Qed.

Lemma preserves_insert m k v : m ∈ maps → preserves (Stable.insert m k v).
Proof.
  intros Hm env st a st'. unfold Stable.insert.
  destruct (encode (valueType m) v) as [v'|] eqn:Hv; [|done].
  intros [= _ <-] (H0 & H1 & H2 & H3 & H4).
  apply encode_idemp in Hv. unfold maps in Hm.
  repeat (apply elem_of_cons in Hm as [->|Hm]);
    [..|by apply elem_of_nil in Hm];
    repeat split;
    first [ by apply wf_insert_same | by apply wf_other ].
Qed.

Lemma preserves_remove m k : m ∈ maps → preserves (Stable.remove m k).
Proof.
  intros Hm env st a st'. unfold Stable.remove.
  intros [= _ <-] (H0 & H1 & H2 & H3 & H4). unfold maps in Hm.
  repeat (apply elem_of_cons in Hm as [->|Hm]);
    [..|by apply elem_of_nil in Hm];
    repeat split;
    first [ by apply wf_remove_same | by apply wf_other ].
Qed.

Ltac preserve :=
  repeat first
    [ apply preserves_update
    | apply preserves_query
    | apply preserves_bind; [|intros ?]
    | apply preserves_ret
    | apply preserves_lift
    | apply preserves_param
    | apply preserves_uuidv4
    | apply preserves_caller
    | apply preserves_get
    | apply preserves_values
    | apply preserves_insert; unfold maps; by repeat constructor
    | apply preserves_remove; unfold maps; by repeat constructor
    | match goal with
      | |- preserves (if ?b then _ else _) => destruct b
      | |- preserves (match ?o with Some _ => _ | None => _ end) => destruct o
      end ].

(** The invariant holds of the empty stable memory and every method keeps
    it: it holds of every state that the canister reaches. *)
Theorem wf_state_invariant :
  wf_state ∅ ∧
  (∀ P, preserves (createDepartment P)) ∧
  (∀ P, preserves (createDoctor P)) ∧
  (∀ P, preserves (createPatient P)) ∧
  (∀ P, preserves (createConsultation P)) ∧
  (∀ P, preserves (createChat P)) ∧
  (∀ id P, preserves (updatePatient id P)) ∧
  (∀ id P, preserves (updateDoctor id P)) ∧
  (∀ id b, preserves (updateDoctorAvailability id b)) ∧
  (∀ id, preserves (deletePatient id)) ∧
  (∀ id, preserves (deleteDoctor id)) ∧
  (∀ id, preserves (deleteDepartment id)).
Proof.
  split_and!; [apply wf_state_empty|..]; intros;
    unfold createDepartment, createDoctor, createPatient, createConsultation,
      createChat, updatePatient, updateDoctor, updateDoctorAvailability,
      deletePatient, deleteDoctor, deleteDepartment;
    preserve.
Qed.

(** ** Concrete runs

    Each property that has premises, applied to the small clinic. *)

Ltac text_field := eexists; split; [vm_compute; reflexivity | discriminate].

(** C1 at the clinic: one creation of each kind, each found again by id. *)
Lemma C1_witness :
  create_then_get createDepartment getDepartmentById new_department clinic ∧
  create_then_get createDoctor getDoctorById new_doctor clinic ∧
  create_then_get createPatient getPatientById new_patient clinic ∧
  create_then_get createConsultation getConsultationById new_consultation clinic ∧
  create_then_get createChat getChatById new_chat clinic.
Proof.
  split_and!.
  - apply (C1_create_then_getById new_department clinic). text_field.
  - apply (C1_create_then_getById new_doctor clinic).
    + split_and!; text_field.
    + compute_done.
  - apply (C1_create_then_getById new_patient clinic). split; [text_field|].
    exists 0%N. split; [vm_compute; reflexivity | reflexivity].
  - apply (C1_create_then_getById new_consultation clinic). split_and!; text_field.
  - apply (C1_create_then_getById new_chat clinic). split_and!; text_field.
Defined.

(** C2 at the clinic: Bob submits a second John Doe for the same department. *)
Lemma C2_witness :
  john ∈ stored Doctors clinic ∧
  ∃ msg, createDoctor john_again as_bob clinic
         = Some (Err (InvalidPayload msg), clinic).
Proof.
  split; [compute_done|].
  apply (C2_duplicate_doctor_rejected clinic as_bob john_again john
           "John Doe" "dep-1" "other.png");
    compute_done.
Defined.

(** C3 on the empty stable memory. *)
Lemma C3_witness :
  (∃ msg, getAllDoctors as_alice ∅ = Some (Err (NotFound msg), ∅)) ∧
  (∃ R st', createDoctor new_doctor as_alice ∅ = Some (Ok R, st') ∧
            ∀ env', getAllDoctors env' st' = Some (Ok [R], st')) ∧
  (∃ R st', createChat new_chat as_alice ∅ = Some (Ok R, st') ∧
            ∀ env', getAllChats env' st' = Some (Ok [R], st')).
Proof.
  destruct C3_getAll_empty_and_singleton as (_ & Hdoc & _ & _ & Hchat).
  split_and!.
  - apply (Hdoc ∅); compute_done.
  - apply (Hdoc ∅); [compute_done | split_and!; text_field].
  - apply (Hchat ∅); [compute_done | split_and!; text_field].
Defined.

(** C4 at the clinic: Ann's record with [name] and [age] from the payload,
    [id] and [owner] as stored. *)
Lemma C4_witness :
  ∃ r', updatePatient "pat-1" ann_at_40 as_alice clinic
          = Some (Ok r', <[2 := <["pat-1" := r']> (contents Patients clinic)]> clinic) ∧
        r' !! "age" = Some (VNat64 40) ∧
        r' !! "name" = Some (VText "Ann") ∧
        r' !! "owner" = Some (VPrincipal bob) ∧
        r' !! "id" = Some (VText "pat-1").
Proof.
  destruct C4_update_merges_declared_fields as [Hpat _].
  destruct (Hpat "pat-1" ann_at_40 as_alice clinic) as (Hok & _ & _);
    [compute_done|].
  destruct (Hok ann) as (r' & Hrun & Hin & Hout);
    [compute_done | compute_done |].
  exists r'. split_and!.
  - exact Hrun.
  - rewrite Hin by compute_done. compute_done.
  - rewrite Hin by compute_done. compute_done.
  - rewrite Hout by compute_done. compute_done.
  - rewrite Hout by compute_done. compute_done.
Defined.

(** C5 at the clinic: the update that names Bob as owner leaves Alice as the
    owner of John's record. *)
Lemma C5_witness :
  take_over !! "owner" = Some (VPrincipal bob) ∧
  john !! "owner" = Some (VPrincipal alice) ∧
  updateDoctor "doc-1" take_over as_bob clinic = Some (Ok john, clinic) ∧
  contents Doctors clinic !! "doc-1" = Some john.
Proof.
  assert (updateDoctor "doc-1" take_over as_bob clinic = Some (Ok john, clinic))
    as Hrun by compute_done.
  destruct C5_update_keeps_owner as [Hdoc _].
  destruct (Hdoc "doc-1" take_over as_bob clinic john) as [Hkeeps _];
    [compute_done|].
  destruct (Hkeeps john clinic Hrun) as [Howner Hstored].
  split_and!; [compute_done | compute_done | exact Hrun | exact Hstored].
Defined.

(** C6 at the clinic: John is deleted, Jane and the other maps stay. *)
Lemma C6_witness :
  ∃ msg st',
    deleteDoctor "doc-1" as_bob clinic = Some (Ok (Success msg), st') ∧
    contents Doctors st' !! "doc-1" = None ∧
    contents Doctors st' !! "doc-2" = Some jane ∧
    contents Departments st' = contents Departments clinic ∧
    contents Patients st' = contents Patients clinic ∧
    (∃ msg', getDoctorById "doc-1" as_bob st' = Some (Err (NotFound msg'), st')) ∧
    (∃ msg', deleteDoctor "doc-1" as_bob st' = Some (Err (NotFound msg'), st')).
Proof.
  destruct C6_delete_removes_exactly_one as (_ & Hdoc & _).
  destruct (Hdoc "doc-1" as_bob clinic) as [Hpresent _].
  destruct (Hpresent john) as (msg & st' & Hrun & Hgone & Hrest & Hothers & Hget & Hdel);
    [compute_done|].
  exists msg, st'. split_and!; [done | done | | | | apply Hget | apply Hdel].
  - rewrite Hrest by discriminate. compute_done.
  - unfold contents. simpl. rewrite Hothers by discriminate. reflexivity.
  - unfold contents. simpl. rewrite Hothers by discriminate. reflexivity.
Defined.

Lemma not_owned_all c (l : list obj) :
  forallb (λ d, negb (owned_byb c d)) l = true →
  Forall (λ d, ¬ owned_by c d) l.
Proof.
  rewrite forallb_forall, Forall_forall. intros H d Hd Ho.
  apply list_elem_of_In, H in Hd. apply owned_byb_spec in Ho.
  by rewrite Ho in Hd.
Qed.

(** Alice has created [doc-2], [doc-3] and [doc-1], in this order: the
    lookup answers the record under [doc-1], the least key, and not the one
    created first.  Bob owns no doctor, and one patient. *)
Lemma C7_witness :
  stored Doctors three_doctors =
    [doctor_of "Dr. One" "doc-1"; doctor_of "Dr. Two" "doc-2";
     doctor_of "Dr. Three" "doc-3"] ∧
  Forall (owned_by alice) (stored Doctors three_doctors) ∧
  getDoctorByOwner as_alice three_doctors
    = Some (Ok (doctor_of "Dr. One" "doc-1"), three_doctors) ∧
  least_owned alice Doctors three_doctors (doctor_of "Dr. One" "doc-1") ∧
  (∃ msg, getDoctorByOwner as_bob clinic = Some (Err (NotFound msg), clinic)) ∧
  getPatientByOwner as_bob clinic = Some (Ok ann, clinic).
Proof.
  destruct C7_byOwner_first_match as [Hdoc Hpat].
  assert (stored Doctors three_doctors =
    [doctor_of "Dr. One" "doc-1"; doctor_of "Dr. Two" "doc-2";
     doctor_of "Dr. Three" "doc-3"]) as Hl by compute_done.
  assert (∀ n id, owned_by alice (doctor_of n id)) as Hown.
  { intros n id. exists alice. split; reflexivity. }
  destruct (Hdoc as_alice three_doctors) as (_ & Hfirst & Hanswer);
    [compute_done|].
  assert (getDoctorByOwner as_alice three_doctors
          = Some (Ok (doctor_of "Dr. One" "doc-1"), three_doctors)) as Hget.
  { apply Hfirst. exists [], [doctor_of "Dr. Two" "doc-2";
                              doctor_of "Dr. Three" "doc-3"].
    split_and!; [exact Hl | apply Hown | constructor]. }
  split_and!.
  - exact Hl.
  - rewrite Hl. repeat constructor; apply Hown.
  - exact Hget.
  - exact (proj2 (Hanswer _ Hget)).
  - destruct (Hdoc as_bob clinic) as [Hnone _]; [compute_done|].
    apply Hnone, not_owned_all. vm_compute. reflexivity.
  - destruct (Hpat as_bob clinic) as (_ & Hfirst' & _); [compute_done|].
    apply Hfirst'. exists [], []. split_and!; [compute_done | | constructor].
    exists bob. split; reflexivity.
Defined.


Section ascii_search_runs.
#[local] Existing Instance ascii_engine.


End ascii_search_runs.

(** C9 at the clinic: John's record after [updateDoctorAvailability] is the
    record as it was; it has no [available] field. *)
Lemma C9_witness :
  contents Doctors clinic !! "doc-1" = Some john ∧
  updateDoctorAvailability "doc-1" true as_alice clinic = Some (Ok john, clinic) ∧
  john !! "available" = None.
Proof.
  destruct (C9_availability_is_dropped "doc-1" true as_alice clinic)
    as [Hpresent _]; [compute_done|].
  destruct (Hpresent john) as [Hrun Hfield]; [compute_done|].
  split_and!; [compute_done | exact Hrun | exact Hfield].
Defined.

(** * Further properties of the methods *)

(** ** Rejected creations *)

(** The text that a decoded payload holds in a declared text field. *)
Lemma decoded_text Tp (P p : obj) f :
  decode Tp P = Some p → (f, Candid.text) ∈ Tp →
  ∃ s, P !! f = Some (VText s) ∧ p !! f = Some (VText s).
Proof.
  intros Hp Hf. destruct (encode_field _ _ _ _ _ Hp Hf) as (v & HP & Hp' & Ht).
  destruct v as [s| | |]; try done. by exists s.
Qed.

Lemma decoded_nat64 Tp (P p : obj) f :
  decode Tp P = Some p → (f, Candid.nat64) ∈ Tp →
  ∃ n, P !! f = Some (VNat64 n) ∧ p !! f = Some (VNat64 n) ∧ (n < 2 ^ 64)%N.
Proof.
  intros Hp Hf. destruct (encode_field _ _ _ _ _ Hp Hf) as (v & HP & Hp' & Ht).
  destruct v as [| |n|]; try done. exists n. split_and!; [done..|].
  by apply bool_decide_eq_true in Ht.
Qed.

Lemma falsy_text_empty s : falsy (Some (VText s)) = bool_decide (s = "").
Proof. done. Qed.

Ltac text_in Hp f s :=
  let HP := fresh "HP" in
  let Hq := fresh "Hq" in
  destruct (decoded_text _ _ _ f Hp ltac:(compute_done)) as (s & HP & Hq);
  rewrite Hq, falsy_text_empty.

Lemma createDepartment_missing : 
  rejects_missing CreateDepartmentPayload valid_department createDepartment.
Proof.
  intros P env st [p Hp] Hinv. unfold createDepartment, update.
  erewrite run_param by exact Hp.
  text_in Hp "name" n.
  case_bool_decide as Hn; [done|].
  destruct Hinv. by exists n.
Qed.

Lemma createDoctor_missing :
  rejects_missing CreateDoctorPayload valid_doctor createDoctor.
Proof.
  intros P env st [p Hp] Hinv. unfold createDoctor, update.
  erewrite run_param by exact Hp.
  text_in Hp "name" n. text_in Hp "department_id" d. text_in Hp "image" i.
  repeat case_bool_decide; try done.
  destruct Hinv. split_and!; eexists; eauto.
Qed.

Lemma createPatient_missing :
  rejects_missing CreatePatientPayload valid_patient createPatient.
Proof.
  intros P env st [p Hp] Hinv. unfold createPatient, update.
  erewrite run_param by exact Hp.
  text_in Hp "name" n.
  destruct (decoded_nat64 _ _ _ "age" Hp ltac:(compute_done))
    as (a & HPa & Hpa & Hlt).
  case_bool_decide as Hn; [done|].
  destruct Hinv. split; [by exists n | by exists a].
Qed.

Lemma createConsultation_missing :
  rejects_missing CreateConsultationPayload valid_consultation createConsultation.
Proof.
  intros P env st [p Hp] Hinv. unfold createConsultation, update.
  erewrite run_param by exact Hp.
  text_in Hp "patient_id" a. text_in Hp "problem" b.
  text_in Hp "department_id" c.
  repeat case_bool_decide; try done.
  destruct Hinv. split_and!; eexists; eauto.
Qed.

Lemma createChat_missing :
  rejects_missing CreateChatPayload valid_chat createChat.
Proof.
  intros P env st [p Hp] Hinv. unfold createChat, update.
  erewrite run_param by exact Hp.
  text_in Hp "patient_id" a. text_in Hp "doctor_id" b.
  text_in Hp "message" c. text_in Hp "timestamp" d.
  repeat case_bool_decide; try done.
  destruct Hinv. split_and!; eexists; eauto.
Qed.

(** X1.  Each of the five creations answers [InvalidPayload], with the
    message of the missing-fields check, and leaves the state as it was, when
    the payload decodes at its declared type but holds an empty text in a
    required field. *)
Theorem X1_create_rejects_empty_fields :
  rejects_missing CreateDepartmentPayload valid_department createDepartment ∧
  rejects_missing CreateDoctorPayload valid_doctor createDoctor ∧
  rejects_missing CreatePatientPayload valid_patient createPatient ∧
  rejects_missing CreateConsultationPayload valid_consultation createConsultation ∧
  rejects_missing CreateChatPayload valid_chat createChat.
Proof.
  split_and!;
    [ apply createDepartment_missing | apply createDoctor_missing
    | apply createPatient_missing | apply createConsultation_missing
    | apply createChat_missing ].
Qed.

Lemma X1_witness :
  createDoctor no_image as_alice clinic
  = Some (Err (InvalidPayload "Missing required fields"), clinic).
Proof.
  destruct X1_create_rejects_empty_fields as (_ & Hdoc & _).
  apply Hdoc; [compute_done|].
  intros (_ & _ & (i & Hi & Hne)). apply Hne.
  assert (no_image !! "image" = Some (VText "")) as Hi' by compute_done.
  congruence.
Defined.

(** X2.  For a payload that decodes at [CreatePatientPayload], [createPatient]
    answers [InvalidPayload] exactly when the name is empty: the check of
    [age] against [undefined] never rejects, and the age zero is accepted. *)
Theorem X2_createPatient_rejects_only_empty_name (P : obj) (env : Env) (st : State) :
  is_Some (decode CreatePatientPayload P) →
  ((∃ msg st', createPatient P env st = Some (Err (InvalidPayload msg), st')) ↔
   P !! "name" = Some (VText "")) ∧
  (P !! "name" ≠ Some (VText "") →
   ∃ R st', createPatient P env st = Some (Ok R, st') ∧
            R !! "age" = P !! "age").
Proof.
  intros [p Hp].
  destruct (decoded_text _ _ _ "name" Hp ltac:(compute_done)) as (n & HPn & _).
  destruct (decoded_nat64 _ _ _ "age" Hp ltac:(compute_done))
    as (a & HPa & _ & Hlt).
  assert (n ≠ "" → valid_patient P) as Hvalid.
  { intros Hn. split; [by exists n | by exists a]. }
  split; [split|].
  - intros (msg & st' & Hrun). destruct (decide (n = "")) as [->|Hn]; [done|].
    destruct (createPatient_valid P env st (Hvalid Hn)) as (R & _ & _ & _ & _ & _ & HR).
    rewrite HR in Hrun. discriminate.
  - intros Hempty. eexists _, _. apply createPatient_missing; [by exists p|].
    intros [(s & Hs & Hne) _]. congruence.
  - intros Hne.
    destruct (createPatient_valid P env st) as (R & _ & _ & _ & _ & Hage & HR).
    { apply Hvalid. congruence. }
    by eexists R, _.
Qed.

Lemma X2_witness :
  ∃ R st', createPatient new_patient as_alice clinic = Some (Ok R, st') ∧
           R !! "age" = Some (VNat64 0).
Proof.
  destruct (X2_createPatient_rejects_only_empty_name new_patient as_alice clinic)
    as [_ Hok]; [compute_done|].
  destruct Hok as (R & st' & Hrun & Hage); [compute_done|].
  exists R, st'. split; [exact Hrun|]. rewrite Hage. compute_done.
Defined.

(** ** Listings *)

Lemma stored_length m st : length (stored m st) = size (contents m st).
Proof.
  unfold stored. by rewrite length_fmap, items_Permutation, length_map_to_list.
Qed.

Lemma stored_nonempty m st : contents m st ≠ ∅ → length (stored m st) ≠ 0.
Proof. rewrite stored_length. by apply map_size_non_empty_iff. Qed.

Lemma stored_conforms m st :
  wf m st → Vec (valueType m) (stored m st) = Some (stored m st).
Proof.
  intros Hwf. apply Vec_conforms, Forall_forall. intros d Hd.
  by apply (wf_stored m st).
Qed.

Ltac get_all_stored f m :=
  let env := fresh "env" in
  let st := fresh "st" in
  let Hwf := fresh "Hwf" in
  let Hne := fresh "Hne" in
  let Hv := fresh "Hv" in
  intros env st Hwf Hne; exists (stored m st); split_and!;
  [ unfold f, query; rewrite run_values;
    rewrite bool_decide_eq_false_2 by (by apply stored_nonempty);
    pose proof (stored_conforms m st Hwf) as Hv;
    unfold ret; cbn [ResultOf]; cbn [valueType m] in Hv; by rewrite Hv
  | apply stored_length
  | intros v; apply stored_elem_of ].

(** X3.  On a map that holds at least one record, each [getAllX] answers all
    the stored records, one per key, and changes nothing. *)
Theorem X3_getAll_lists_every_record :
  getAll_spec Departments getAllDepartments ∧
  getAll_spec Doctors getAllDoctors ∧
  getAll_spec Patients getAllPatients ∧
  getAll_spec Consultations getAllConsultations ∧
  getAll_spec Chats getAllChats.
Proof.
  split_and!.
  - get_all_stored getAllDepartments Departments.
  - get_all_stored getAllDoctors Doctors.
  - get_all_stored getAllPatients Patients.
  - get_all_stored getAllConsultations Consultations.
  - get_all_stored getAllChats Chats.
Qed.

Lemma X3_witness :
  ∃ l, getAllDoctors as_bob clinic = Some (Ok l, clinic) ∧
       length l = 2 ∧ john ∈ l ∧ jane ∈ l.
Proof.
  destruct X3_getAll_lists_every_record as (_ & Hdoc & _).
  destruct (Hdoc as_bob clinic) as (l & Hrun & Hlen & Hin);
    [compute_done | compute_done |].
  exists l. split_and!; [exact Hrun | | |].
  - rewrite Hlen. compute_done.
  - apply Hin. exists "doc-1". compute_done.
  - apply Hin. exists "doc-2". compute_done.
Defined.

Lemma history_elem_of pid (l : list obj) c :
  c ∈ filter (λ c : obj, strict_eq (c !! "patient_id") (Some (VText pid)) = true) l
  ↔ c ∈ l ∧ consults pid c.
Proof. rewrite list_elem_of_filter, strict_eq_text. unfold consults. tauto. Qed.

(** X4.  On a well-formed map, [getConsultationHistoryByPatient] answers the
    stored consultations whose [patient_id] is the given id, in the order of
    [values()], which is the order of the serialised keys, and [NotFound]
    when there is none. *)
Theorem X4_history_by_patient (pid : string) (env : Env) (st : State) :
  wf Consultations st →
  (Forall (λ c, ¬ consults pid c) (stored Consultations st) →
     ∃ msg, getConsultationHistoryByPatient pid env st
            = Some (Err (NotFound msg), st)) ∧
  (Exists (consults pid) (stored Consultations st) →
     ∃ l, getConsultationHistoryByPatient pid env st = Some (Ok l, st) ∧
          sublist l (stored Consultations st) ∧
          in_key_order Consultations st l ∧
          ∀ c, c ∈ l ↔ c ∈ stored Consultations st ∧ consults pid c).
Proof.
  intros Hwf. split.
  - intros Hnone. unfold getConsultationHistoryByPatient, query.
    rewrite run_values. rewrite filter_none.
    + by eexists.
    + eapply Forall_impl; [exact Hnone|]. intros c Hc.
      by rewrite strict_eq_text.
  - intros (c & Hc & Hpid)%Exists_exists. eexists. split.
    { unfold getConsultationHistoryByPatient, query. rewrite run_values.
      rewrite bool_decide_eq_false_2.
      - unfold ret. cbn [ResultOf]. rewrite Vec_conforms; [done|].
        apply Forall_forall. intros d [_ Hd]%list_elem_of_filter.
        by apply (wf_stored Consultations st).
      - assert (c ∈ filter
          (λ c : obj, strict_eq (c !! "patient_id") (Some (VText pid)) = true)
          (stored Consultations st)) as Hin by (by apply history_elem_of).
        destruct (filter _ _); [by apply elem_of_nil in Hin | done]. }
    split_and!;
      [ apply sublist_filter
      | apply sublist_in_key_order, sublist_filter
      | apply history_elem_of ].
Qed.

Lemma X4_witness :
  stored Consultations busy_clinic = [visit1; visit2; visit3] ∧
  getConsultationHistoryByPatient "pat-1" as_alice busy_clinic
    = Some (Ok [visit1; visit3], busy_clinic) ∧
  (∃ l, getConsultationHistoryByPatient "pat-1" as_alice busy_clinic
        = Some (Ok l, busy_clinic) ∧
        (∀ c, c ∈ l ↔ c ∈ stored Consultations busy_clinic ∧ consults "pat-1" c)) ∧
  (∃ msg, getConsultationHistoryByPatient "pat-1" as_alice clinic
          = Some (Err (NotFound msg), clinic)).
Proof.
  split; [compute_done|]. split; [compute_done|]. split.
  - destruct (X4_history_by_patient "pat-1" as_alice busy_clinic) as [_ Hsome];
      [compute_done|].
    destruct Hsome as (l & Hrun & _ & _ & Hin).
    { apply Exists_exists. exists visit1. split; [|unfold consults]; compute_done. }
    exists l. split; [exact Hrun | exact Hin].
  - destruct (X4_history_by_patient "pat-1" as_alice clinic) as [Hnone _];
      [compute_done|].
    apply Hnone. unfold consults. compute_done.
Defined.

(** ** What the updates do not check *)

(** The scan of [createDoctor] finds a stored doctor of the payload's name
    and department. *)
Lemma createDoctor_duplicate
    (st : State) (env : Env) (P d : obj) (N D img : string) :
  d ∈ stored Doctors st →
  d !! "name" = Some (VText N) →
  d !! "department_id" = Some (VText D) →
  P !! "name" = Some (VText N) →
  P !! "department_id" = Some (VText D) →
  P !! "image" = Some (VText img) →
  ∃ msg, createDoctor P env st = Some (Err (InvalidPayload msg), st).
Proof.
  intros Hin HdN HdD HN HD Himg.
  assert (decode CreateDoctorPayload P = Some (declared CreateDoctorPayload P))
    as Hp.
  { apply encode_Some. split; [|done]. typed. by rewrite HN, HD, Himg. }
  unfold createDoctor, update. erewrite run_param by exact Hp.
  destruct (falsy _ || falsy _ || falsy _); [by eexists|].
  assert (∀ y : obj,
    same_name_and_department (declared CreateDoctorPayload P) y =
    Some (bool_decide (y !! "name" = Some (VText N) ∧
                       y !! "department_id" = Some (VText D)))) as Hscan.
  { intros y. apply same_name_and_department_text; by fields. }
  rewrite run_values. erewrite run_lift.
  2:{ apply (Array_some_true _ _ d); [done| |].
      - rewrite Hscan. by rewrite bool_decide_eq_true_2.
      - intros y _. rewrite Hscan. by eexists. }
  by eexists.
Qed.

(** X5.  [updateDoctor] does not run the uniqueness scan of [createDoctor]:
    giving doctor [j] the name and the department of another stored doctor
    [i] succeeds, and both are then stored with that name and department. *)
Theorem X5_update_bypasses_uniqueness
    (i j : string) (di dj P : obj) (N D : string) (env : Env) (st : State) :
  wf Doctors st → i ≠ j →
  contents Doctors st !! i = Some di →
  contents Doctors st !! j = Some dj →
  di !! "name" = Some (VText N) → di !! "department_id" = Some (VText D) →
  P !! "name" = Some (VText N) → P !! "department_id" = Some (VText D) →
  is_Some (decode CreateDoctorPayload P) →
  ∃ R st',
    updateDoctor j P env st = Some (Ok R, st') ∧
    contents Doctors st' !! i = Some di ∧
    contents Doctors st' !! j = Some R ∧
    R !! "name" = Some (VText N) ∧ R !! "department_id" = Some (VText D) ∧
    ∀ env' P' img,
      P' !! "name" = Some (VText N) → P' !! "department_id" = Some (VText D) →
      P' !! "image" = Some (VText img) →
      ∃ msg, createDoctor P' env' st' = Some (Err (InvalidPayload msg), st').
Proof.
  intros Hwf Hij Hi Hj HiN HiD HPN HPD [p Hp].
  pose proof (wf_lookup _ _ _ _ Hwf Hj) as Hdj.
  eexists (spread dj p), _. split_and!.
  - by apply updateDoctor_run.
  - by rewrite (contents_insert_eq Doctors), lookup_insert_ne.
  - by rewrite (contents_insert_eq Doctors), lookup_insert_eq.
  - rewrite (spread_lookup_declared CreateDoctorPayload _ _ P); [done..|].
    compute_done.
  - rewrite (spread_lookup_declared CreateDoctorPayload _ _ P); [done..|].
    compute_done.
  - intros env' P' img HN' HD' Himg.
    apply (createDoctor_duplicate _ env' P' di N D img); try done.
    apply stored_elem_of. exists i.
    by rewrite (contents_insert_eq Doctors), lookup_insert_ne.
Qed.

Lemma X5_witness :
  ∃ R st',
    updateDoctor "doc-2" john_again as_bob clinic = Some (Ok R, st') ∧
    contents Doctors st' !! "doc-1" = Some john ∧
    contents Doctors st' !! "doc-2" = Some R ∧
    R !! "name" = Some (VText "John Doe") ∧
    R !! "department_id" = Some (VText "dep-1").
Proof.
  destruct (X5_update_bypasses_uniqueness "doc-1" "doc-2" john jane john_again
              "John Doe" "dep-1" as_bob clinic)
    as (R & st' & Hrun & Hi & Hj & HN & HD & _); try compute_done.
  exists R, st'. split_and!; assumption.
Defined.

(** X6.  The updates do not run the missing-fields check of the creations: a
    payload with an empty name, which [createPatient] and [createDoctor]
    reject, is merged into a stored record, whose name is then empty. *)
Theorem X6_update_accepts_empty_name (id : string) (r P : obj) (env : Env) (st : State) :
  P !! "name" = Some (VText "") →
  (wf Patients st → contents Patients st !! id = Some r →
   is_Some (decode CreatePatientPayload P) →
   (∃ R st', updatePatient id P env st = Some (Ok R, st') ∧
             R !! "name" = Some (VText "") ∧ R !! "id" = r !! "id" ∧
             contents Patients st' !! id = Some R) ∧
   createPatient P env st
   = Some (Err (InvalidPayload "Missing required fields"), st)) ∧
  (wf Doctors st → contents Doctors st !! id = Some r →
   is_Some (decode CreateDoctorPayload P) →
   (∃ R st', updateDoctor id P env st = Some (Ok R, st') ∧
             R !! "name" = Some (VText "") ∧ R !! "id" = r !! "id" ∧
             contents Doctors st' !! id = Some R) ∧
   createDoctor P env st
   = Some (Err (InvalidPayload "Missing required fields"), st)).
Proof.
  intros HP. split; intros Hwf Hid [p Hp];
    pose proof (wf_lookup _ _ _ _ Hwf Hid) as Hr; split.
  - eexists (spread r p), _. split_and!.
    + by apply updatePatient_run.
    + rewrite (spread_lookup_declared CreatePatientPayload _ _ P); [done..|].
      compute_done.
    + apply (spread_lookup_other CreatePatientPayload _ _ P); [done|].
      compute_done.
    + by rewrite (contents_insert_eq Patients), lookup_insert_eq.
  - apply createPatient_missing; [by exists p|].
    intros [(s & Hs & Hne) _]. congruence.
  - eexists (spread r p), _. split_and!.
    + by apply updateDoctor_run.
    + rewrite (spread_lookup_declared CreateDoctorPayload _ _ P); [done..|].
      compute_done.
    + apply (spread_lookup_other CreateDoctorPayload _ _ P); [done|].
      compute_done.
    + by rewrite (contents_insert_eq Doctors), lookup_insert_eq.
  - apply createDoctor_missing; [by exists p|].
    intros [(s & Hs & Hne) _]. congruence.
Qed.

Lemma X6_witness :
  (∃ R st', updatePatient "pat-1" nameless as_alice clinic = Some (Ok R, st') ∧
            R !! "name" = Some (VText "") ∧
            contents Patients st' !! "pat-1" = Some R) ∧
  createPatient nameless as_alice clinic
  = Some (Err (InvalidPayload "Missing required fields"), clinic).
Proof.
  destruct (X6_update_accepts_empty_name "pat-1" ann nameless as_alice clinic)
    as [Hpat _]; [compute_done|].
  destruct Hpat as [(R & st' & Hrun & Hname & _ & Hst) Hcreate]; try compute_done.
  split; [|exact Hcreate]. exists R, st'. split_and!; assumption.
Defined.

(** ** Deletions leave references behind *)

(** X7.  [deleteDepartment] does not look at the doctors: a doctor whose
    [department_id] is the deleted id stays stored and is answered by
    [getDoctorById] as before, while the department itself is gone. *)
Theorem X7_delete_department_keeps_doctors
    (dep k : string) (d r : obj) (env env' : Env) (st : State) :
  wf Doctors st →
  contents Departments st !! dep = Some r →
  contents Doctors st !! k = Some d →
  d !! "department_id" = Some (VText dep) →
  ∃ msg st',
    deleteDepartment dep env st = Some (Ok (Success msg), st') ∧
    contents Doctors st' = contents Doctors st ∧
    getDoctorById k env' st' = Some (Ok d, st') ∧
    ∃ msg', getDepartmentById dep env' st' = Some (Err (NotFound msg'), st').
Proof.
  intros Hwf Hdep Hk Hd.
  eexists _, (<[0 := delete dep (contents Departments st)]> st).
  assert (contents Doctors (<[0 := delete dep (contents Departments st)]> st)
          = contents Doctors st) as Hsame.
  { by apply (contents_insert_ne Departments Doctors). }
  split_and!.
  - unfold deleteDepartment, update. rewrite run_get, Hdep, run_remove.
    by unfold ret.
  - exact Hsame.
  - apply getDoctorById_Some; [by rewrite Hsame|].
    by apply (wf_lookup Doctors st k).
  - eexists. apply getDepartmentById_None.
    by rewrite (contents_insert_eq Departments), lookup_delete_eq.
Qed.

Lemma X7_witness :
  ∃ msg st',
    deleteDepartment "dep-1" as_bob clinic = Some (Ok (Success msg), st') ∧
    getDoctorById "doc-1" as_alice st' = Some (Ok john, st') ∧
    john !! "department_id" = Some (VText "dep-1") ∧
    ∃ msg', getDepartmentById "dep-1" as_alice st' = Some (Err (NotFound msg'), st').
Proof.
  destruct (X7_delete_department_keeps_doctors "dep-1" "doc-1" john cardiology
              as_bob as_alice clinic)
    as (msg & st' & Hrun & _ & Hget & Hgone); try compute_done.
  exists msg, st'. split_and!; [exact Hrun | exact Hget | compute_done | exact Hgone].
Defined.

(** X8.  [deletePatient] does not look at the consultations, and the history
    lookup does not look at the patients: after a patient is deleted, its
    consultation history is answered as before. *)
Theorem X8_delete_patient_keeps_history
    (pid : string) (r : obj) (env env' : Env) (st : State) :
  contents Patients st !! pid = Some r →
  ∃ msg st',
    deletePatient pid env st = Some (Ok (Success msg), st') ∧
    contents Patients st' !! pid = None ∧
    stored Consultations st' = stored Consultations st ∧
    fst <$> getConsultationHistoryByPatient pid env' st'
    = fst <$> getConsultationHistoryByPatient pid env' st.
Proof.
  intros Hpid.
  eexists _, (<[2 := delete pid (contents Patients st)]> st).
  assert (stored Consultations (<[2 := delete pid (contents Patients st)]> st)
          = stored Consultations st) as Hsame.
  { unfold stored, items.
    by rewrite (contents_insert_ne Patients Consultations). }
  split_and!.
  - unfold deletePatient, update. rewrite run_get, Hpid, run_remove.
    by unfold ret.
  - by rewrite (contents_insert_eq Patients), lookup_delete_eq.
  - exact Hsame.
  - unfold getConsultationHistoryByPatient, query. rewrite !run_values, Hsame.
    destruct (bool_decide _); unfold ret; simpl; [done|].
    by destruct (Vec Consultation _).
Qed.

Lemma X8_witness :
  ∃ msg st',
    deletePatient "pat-1" as_alice busy_clinic = Some (Ok (Success msg), st') ∧
    contents Patients st' !! "pat-1" = None ∧
    fst <$> getConsultationHistoryByPatient "pat-1" as_bob st'
    = fst <$> getConsultationHistoryByPatient "pat-1" as_bob busy_clinic.
Proof.
  destruct (X8_delete_patient_keeps_history "pat-1" ann as_alice as_bob busy_clinic)
    as (msg & st' & Hrun & Hgone & _ & Hhist); [compute_done|].
  exists msg, st'. split_and!; assumption.
Defined.

(** ** What a creation writes *)

Lemma created_frame m R env st :
  contents m (<[memoryId m := <[uuid env := R]> (contents m st)]> st) !! uuid env
    = Some R ∧
  (∀ k, k ≠ uuid env →
     contents m (<[memoryId m := <[uuid env := R]> (contents m st)]> st) !! k
     = contents m st !! k) ∧
  (∀ i, i ≠ memoryId m →
     (<[memoryId m := <[uuid env := R]> (contents m st)]> st) !! i = st !! i) ∧
  size (contents m (<[memoryId m := <[uuid env := R]> (contents m st)]> st)) =
    match contents m st !! uuid env with
    | Some _ => size (contents m st)
    | None => S (size (contents m st))
    end.
Proof.
  rewrite contents_insert_eq. split_and!.
  - by rewrite lookup_insert_eq.
  - intros k Hk. by rewrite lookup_insert_ne.
  - intros i Hi. by rewrite lookup_insert_ne.
  - destruct (contents m st !! uuid env) as [old|] eqn:Hold.
    + by apply map_size_insert_Some.
    + by apply map_size_insert_None.
Qed.

(** X9.  A successful creation writes the new record under the generated id
    and nothing else: the other keys of its map and the other maps are as
    they were.  No check is made that the generated id is new: the map grows
    by one key when it is, and the record stored under it is replaced when it
    is not. *)
Theorem X9_create_writes_one_key :
  create_frame Departments (λ _ P, valid_department P) createDepartment ∧
  create_frame Doctors (λ st P, valid_doctor P ∧ name_free st P) createDoctor ∧
  create_frame Patients (λ _ P, valid_patient P) createPatient ∧
  create_frame Consultations (λ _ P, valid_consultation P) createConsultation ∧
  create_frame Chats (λ _ P, valid_chat P) createChat.
Proof.
  split_and!; intros P env st HP.
  - destruct (createDepartment_valid P env st HP) as (R & _ & _ & _ & ->).
    eexists R, _. split; [done|]. apply (created_frame Departments).
  - destruct HP as [HP Hfree].
    destruct (createDoctor_valid P env st HP Hfree)
      as (R & _ & _ & _ & _ & _ & _ & ->).
    eexists R, _. split; [done|]. apply (created_frame Doctors).
  - destruct (createPatient_valid P env st HP) as (R & _ & _ & _ & _ & _ & ->).
    eexists R, _. split; [done|]. apply (created_frame Patients).
  - destruct (createConsultation_valid P env st HP)
      as (R & _ & _ & _ & _ & _ & ->).
    eexists R, _. split; [done|]. apply (created_frame Consultations).
  - destruct (createChat_valid P env st HP)
      as (R & _ & _ & _ & _ & _ & _ & ->).
    eexists R, _. split; [done|]. apply (created_frame Chats).
Qed.

Lemma X9_witness :
  (∃ R st', createDoctor new_doctor as_alice clinic = Some (Ok R, st') ∧
            contents Doctors st' !! "doc-1" = Some john ∧
            size (contents Doctors st') = 3) ∧
  (∃ R st', createDoctor new_doctor colliding clinic = Some (Ok R, st') ∧
            contents Doctors st' !! "doc-1" = Some R ∧
            R !! "name" = Some (VText "Dr. Lee") ∧
            size (contents Doctors st') = 2).
Proof.
  destruct X9_create_writes_one_key as (_ & Hdoc & _).
  assert (valid_doctor new_doctor) as Hvalid by (split_and!; text_field).
  split.
  - destruct (Hdoc new_doctor as_alice clinic) as (R & st' & Hrun & _ & Hk & _ & Hsize);
      [split; [exact Hvalid | compute_done]|].
    exists R, st'. split_and!; [exact Hrun | |].
    + rewrite Hk by discriminate. compute_done.
    + rewrite Hsize. compute_done.
  - destruct (Hdoc new_doctor colliding clinic) as (R & st' & Hrun & HR & _ & _ & Hsize);
      [split; [exact Hvalid | compute_done]|].
    exists R, st'. split_and!; [exact Hrun | exact HR | |].
    + assert (createDoctor new_doctor colliding clinic =
              Some (Ok (<["owner" := VPrincipal bob]>
                          (<["id" := VText "doc-1"]> new_doctor)),
                    <[1 := <["doc-1" := <["owner" := VPrincipal bob]>
                          (<["id" := VText "doc-1"]> new_doctor)]>
                          (contents Doctors clinic)]> clinic)) as Hc
        by compute_done.
      rewrite Hc in Hrun. injection Hrun as <- _. compute_done.
    + rewrite Hsize. compute_done.
Defined.

(** ** Invariants of the reachable states *)

Lemma exec_preserves {A} (c : M A) env st :
  preserves c → wf_state st → wf_state (after (c env st) st).
Proof.
  intros Hc Hwf. unfold after.
  destruct (c env st) as [[a st']|] eqn:E; [|done]. by eapply Hc.
Qed.

Lemma reachable_wf (st : State) : reachable st → wf_state st.
Proof.
  destruct wf_state_invariant
    as (H0 & H1 & H2 & H3 & H4 & H5 & H6 & H7 & H8 & H9 & H10 & H11).
  induction 1 as [|st c env _ IH]; [exact H0|].
  destruct c; simpl; by apply exec_preserves.
Qed.

Lemma keyed_insert m k (v : obj) st :
  m ∈ maps → v !! "id" = Some (VText k) → keyed_state st →
  keyed_state (<[memoryId m := <[k := v]> (contents m st)]> st).
Proof.
  intros Hm Hv (H0 & H1 & H2 & H3 & H4). unfold maps in Hm.
  assert (keyed m st → keyed m (<[memoryId m := <[k := v]> (contents m st)]> st))
    as Hsame.
  { intros H. unfold keyed. rewrite contents_insert_eq.
    by apply map_Forall_insert_2. }
  assert (∀ m', memoryId m ≠ memoryId m' → keyed m' st →
            keyed m' (<[memoryId m := <[k := v]> (contents m st)]> st))
    as Hother.
  { intros m' Hne H. unfold keyed. by rewrite contents_insert_ne. }
  repeat (apply elem_of_cons in Hm as [->|Hm]);
    [..|by apply elem_of_nil in Hm];
    repeat split; first [ by apply Hsame | by apply Hother ].
Qed.

Lemma keyed_remove m k st :
  m ∈ maps → keyed_state st →
  keyed_state (<[memoryId m := delete k (contents m st)]> st).
Proof.
  intros Hm (H0 & H1 & H2 & H3 & H4). unfold maps in Hm.
  assert (keyed m st → keyed m (<[memoryId m := delete k (contents m st)]> st))
    as Hsame.
  { intros H. unfold keyed. rewrite contents_insert_eq.
    by apply map_Forall_delete. }
  assert (∀ m', memoryId m ≠ memoryId m' → keyed m' st →
            keyed m' (<[memoryId m := delete k (contents m st)]> st))
    as Hother.
  { intros m' Hne H. unfold keyed. by rewrite contents_insert_ne. }
  repeat (apply elem_of_cons in Hm as [->|Hm]);
    [..|by apply elem_of_nil in Hm];
    repeat split; first [ by apply Hsame | by apply Hother ].
Qed.

(** A computation keeps every record under its own id. *)
Ltac run_cases H :=
  unfold update, bind, param, lift, Stable.get, Stable.values, Stable.insert,
    Stable.remove, uuidv4, ic_caller, ret in H;
  repeat case_match; simplify_eq; try done.

Ltac id_of_encoded :=
  match goal with
  | H : encode _ _ = Some ?v |- ?v !! "id" = _ =>
      rewrite (encode_lookup_in _ _ _ "id" H) by compute_done
  end.

Ltac id_of_created :=
  apply keyed_insert; [unfold maps; by repeat constructor | | done];
  id_of_encoded; unfold spread;
  rewrite ?lookup_insert_ne by done;
  rewrite ?lookup_insert_eq, ?lookup_union;
  try match goal with
  | H : decode _ _ = Some ?p |- context [?p !! "id"] =>
      rewrite (encode_lookup_notin _ _ _ "id" H) by compute_done
  end;
  by rewrite ?lookup_singleton_eq.

Lemma keyed_lookup m st k (r : obj) :
  keyed m st → contents m st !! k = Some r → r !! "id" = Some (VText k).
Proof. intros H Hk. exact (H k r Hk). Qed.

Ltac id_of_updated m :=
  apply keyed_insert; [unfold maps; by repeat constructor | | done];
  id_of_encoded; unfold spread;
  rewrite ?lookup_insert_ne by done;
  rewrite ?lookup_union;
  try match goal with
  | H : decode _ _ = Some ?p |- context [?p !! "id"] =>
      rewrite (encode_lookup_notin _ _ _ "id" H) by compute_done
  end;
  match goal with
  | Hk : keyed_state _, H : contents m _ !! _ = Some ?r |- context [?r !! "id"] =>
      destruct Hk as (? & ? & ? & ? & ?);
      by erewrite (keyed_lookup m) by eassumption
  end.

Section keyed_methods.
Context (env : Env) (st st' : State).

Lemma createDepartment_keyed P a :
  createDepartment P env st = Some (a, st') → keyed_state st → keyed_state st'.
Proof. unfold createDepartment. intros H Hk. run_cases H. id_of_created. Qed.

Lemma createDoctor_keyed P a :
  createDoctor P env st = Some (a, st') → keyed_state st → keyed_state st'.
Proof. unfold createDoctor. intros H Hk. run_cases H. id_of_created. Qed.

Lemma createPatient_keyed P a :
  createPatient P env st = Some (a, st') → keyed_state st → keyed_state st'.
Proof. unfold createPatient. intros H Hk. run_cases H. id_of_created. Qed.

Lemma createConsultation_keyed P a :
  createConsultation P env st = Some (a, st') → keyed_state st → keyed_state st'.
Proof. unfold createConsultation. intros H Hk. run_cases H. id_of_created. Qed.

Lemma createChat_keyed P a :
  createChat P env st = Some (a, st') → keyed_state st → keyed_state st'.
Proof. unfold createChat. intros H Hk. run_cases H. id_of_created. Qed.

Lemma updatePatient_keyed id P a :
  updatePatient id P env st = Some (a, st') → keyed_state st → keyed_state st'.
Proof. unfold updatePatient. intros H Hk. run_cases H. id_of_updated Patients. Qed.

Lemma updateDoctor_keyed id P a :
  updateDoctor id P env st = Some (a, st') → keyed_state st → keyed_state st'.
Proof. unfold updateDoctor. intros H Hk. run_cases H. id_of_updated Doctors. Qed.

Lemma updateDoctorAvailability_keyed id b a :
  updateDoctorAvailability id b env st = Some (a, st') →
  keyed_state st → keyed_state st'.
Proof.
  unfold updateDoctorAvailability. intros H Hk. run_cases H.
  id_of_updated Doctors.
Qed.

Lemma deletePatient_keyed id a :
  deletePatient id env st = Some (a, st') → keyed_state st → keyed_state st'.
Proof.
  unfold deletePatient. intros H Hk. run_cases H.
  apply keyed_remove; [unfold maps; by repeat constructor | done].
Qed.

Lemma deleteDoctor_keyed id a :
  deleteDoctor id env st = Some (a, st') → keyed_state st → keyed_state st'.
Proof.
  unfold deleteDoctor. intros H Hk. run_cases H.
  apply keyed_remove; [unfold maps; by repeat constructor | done].
Qed.

Lemma deleteDepartment_keyed id a :
  deleteDepartment id env st = Some (a, st') → keyed_state st → keyed_state st'.
Proof.
  unfold deleteDepartment. intros H Hk. run_cases H.
  apply keyed_remove; [unfold maps; by repeat constructor | done].
Qed.

End keyed_methods.

Lemma keyed_state_empty : keyed_state ∅.
Proof.
  repeat split; unfold keyed; rewrite contents_empty; apply map_Forall_empty.
Qed.

Lemma after_keyed {A} (c : M A) env st :
  (∀ a st', c env st = Some (a, st') → keyed_state st → keyed_state st') →
  keyed_state st → keyed_state (after (c env st) st).
Proof.
  intros Hc Hk. unfold after.
  destruct (c env st) as [[a st']|] eqn:E; [|done]. by eapply Hc.
Qed.

(** X11.  In every reachable state each record is stored under its own [id]:
    the [id] field is set to the map key at creation and no update changes
    it, so [getXById(k)] answers a record whose [id] is [k]. *)
Theorem X11_reachable_records_are_stored_under_their_id (st : State) :
  reachable st →
  keyed_state st ∧
  ∀ k env d st',
    getDoctorById k env st = Some (Ok d, st') → d !! "id" = Some (VText k).
Proof.
  intros Hreach.
  assert (keyed_state st) as Hk.
  { induction Hreach as [|st c env _ IH]; [apply keyed_state_empty|].
    destruct c; simpl; apply after_keyed; try done; intros a st' Hrun.
    - by eapply createDepartment_keyed.
    - by eapply createDoctor_keyed.
    - by eapply createPatient_keyed.
    - by eapply createConsultation_keyed.
    - by eapply createChat_keyed.
    - by eapply updatePatient_keyed.
    - by eapply updateDoctor_keyed.
    - by eapply updateDoctorAvailability_keyed.
    - by eapply deletePatient_keyed.
    - by eapply deleteDoctor_keyed.
    - by eapply deleteDepartment_keyed. }
  split; [done|]. intros k env d st' Hget.
  pose proof (reachable_wf st Hreach) as (_ & Hwf & _).
  destruct Hk as (_ & Hdoc & _).
  destruct (contents Doctors st !! k) as [r|] eqn:Hr.
  - rewrite (getDoctorById_Some k env st r Hr) in Hget
      by (by apply (wf_lookup Doctors st k)).
    injection Hget as <- _. by apply (keyed_lookup Doctors st).
  - by rewrite (getDoctorById_None k env st Hr) in Hget.
Qed.

Lemma X11_witness :
  keyed_state opened ∧
  getDoctorById "doc-3" as_bob opened = Some (Ok lee, opened) ∧
  lee !! "id" = Some (VText "doc-3").
Proof.
  destruct (X11_reachable_records_are_stored_under_their_id opened) as [Hk Hid].
  { apply reachable_step, reachable_init. }
  assert (getDoctorById "doc-3" as_bob opened = Some (Ok lee, opened)) as Hget
    by compute_done.
  split_and!; [exact Hk | exact Hget | exact (Hid _ _ _ _ Hget)].
Defined.

Ltac answers_by_id f m :=
  unfold f, query; rewrite run_get;
  match goal with
  | Hwf : wf m ?st |- context [contents m ?st !! ?k] =>
      let r := fresh "r" in
      let Hr := fresh "Hr" in
      destruct (contents m st !! k) as [r|] eqn:Hr; [|by eexists];
      pose proof (wf_lookup m st k r Hwf Hr) as He; cbn [valueType m] in He;
      unfold ret; cbn [ResultOf]; rewrite He; by eexists
  end.

Ltac answers_all f m :=
  unfold f, query; rewrite run_values;
  match goal with
  | Hwf : wf m ?st |- _ =>
      destruct (bool_decide _); [by eexists|];
      pose proof (stored_conforms m st Hwf) as He; cbn [valueType m] in He;
      unfold ret; cbn [ResultOf]; rewrite He; by eexists
  end.

Lemma filter_conforms m st (P : obj → Prop) `{∀ x, Decision (P x)} :
  wf m st → Vec (valueType m) (filter P (stored m st)) = Some (filter P (stored m st)).
Proof.
  intros Hwf. apply Vec_conforms, Forall_forall.
  intros d [_ Hd]%list_elem_of_filter. by apply (wf_stored m st).
Qed.

Ltac answers_by_owner f m :=
  unfold f, query; rewrite run_values, run_caller;
  match goal with
  | Hwf : wf m ?st |- context [caller ?env] =>
      erewrite run_lift by (apply (owner_scan m env st); [compute_done|done]);
      destruct (filter _ (stored m st)) as [|d rest] eqn:Hf; [by eexists|];
      assert (d ∈ stored m st) as Hd
        by (assert (d ∈ d :: rest) as Hin by left;
            rewrite <- Hf in Hin;
            by apply list_elem_of_filter in Hin as [_ ?]);
      pose proof (wf_stored m st d Hwf Hd) as He; cbn [valueType m] in He;
      unfold ret; cbn [ResultOf]; rewrite He; by eexists
  end.

Ltac answers_search m s :=
  unfold searchDoctorByName, searchDepartmentByName, query; rewrite run_values;
  match goal with
  | Hwf : wf m ?st |- _ =>
      erewrite run_lift by (apply (name_scan m s st); [compute_done|done]);
      destruct (bool_decide _); [by eexists|];
      pose proof (name_scan_conforms m s st Hwf) as He; cbn [valueType m] in He;
      unfold ret; cbn [ResultOf]; rewrite He; by eexists
  end.

(** X10.  Every state that the canister reaches from the empty stable memory
    by update calls is well-formed: each of the five maps holds only records
    of its declared type.  On such a state no query traps: the property reads
    and method calls of the scans ([owner.toText()], [name.toLowerCase()])
    find what they need in every stored record, whatever the engine's case
    mapping is. *)
Theorem X10_reachable_states_are_well_formed {U : Unicode} (st : State) :
  reachable st →
  wf_state st ∧
  ∀ env id s,
    is_Some (getDepartmentById id env st) ∧ is_Some (getDoctorById id env st) ∧
    is_Some (getPatientById id env st) ∧
    is_Some (getConsultationById id env st) ∧ is_Some (getChatById id env st) ∧
    is_Some (getAllDepartments env st) ∧ is_Some (getAllDoctors env st) ∧
    is_Some (getAllPatients env st) ∧ is_Some (getAllConsultations env st) ∧
    is_Some (getAllChats env st) ∧
    is_Some (getDoctorByOwner env st) ∧ is_Some (getPatientByOwner env st) ∧
    is_Some (searchDoctorByName s env st) ∧
    is_Some (searchDepartmentByName s env st) ∧
    is_Some (getConsultationHistoryByPatient id env st).
Proof.
  intros Hreach. pose proof (reachable_wf st Hreach) as Hwf.
  split; [exact Hwf|]. destruct Hwf as (Hdep & Hdoc & Hpat & Hcon & Hchat).
  intros env id s. split_and!.
  - answers_by_id getDepartmentById Departments.
  - answers_by_id getDoctorById Doctors.
  - answers_by_id getPatientById Patients.
  - answers_by_id getConsultationById Consultations.
  - answers_by_id getChatById Chats.
  - answers_all getAllDepartments Departments.
  - answers_all getAllDoctors Doctors.
  - answers_all getAllPatients Patients.
  - answers_all getAllConsultations Consultations.
  - answers_all getAllChats Chats.
  - answers_by_owner getDoctorByOwner Doctors.
  - answers_by_owner getPatientByOwner Patients.
  - answers_search Doctors s.
  - answers_search Departments s.
  - unfold getConsultationHistoryByPatient, query. rewrite run_values.
    destruct (bool_decide _); [by eexists|].
    pose proof (filter_conforms Consultations st
      (λ c : obj, strict_eq (c !! "patient_id") (Some (VText id)) = true) Hcon)
      as He.
    cbn [valueType Consultations] in He.
    unfold ret. cbn [ResultOf]. rewrite He. by eexists.
Qed.

Lemma X10_witness :
  wf_state opened ∧
  is_Some (getDoctorByOwner as_bob opened) ∧
  is_Some (searchDoctorByName (U := ascii_engine) "lee" as_bob opened).
Proof.
  destruct (X10_reachable_states_are_well_formed (U := ascii_engine) opened)
    as [Hwf Hq].
  { apply reachable_step, reachable_init. }
  destruct (Hq as_bob "doc-3" "lee")
    as (_ & _ & _ & _ & _ & _ & _ & _ & _ & _ & Howner & _ & Hsearch & _).
  split_and!; assumption.
Defined.

(** ** Creation followed by other calls *)

Lemma byOwner_some m env st R :
  ("owner", Candid.Principal) ∈ valueType m → wf m st →
  R ∈ stored m st → owned_by (caller env) R →
  ∃ d rest,
    filter (λ d, owned_byb (caller env) d = true) (stored m st) = d :: rest ∧
    d ∈ stored m st ∧ owned_by (caller env) d ∧
    encode (valueType m) d = Some d.
Proof.
  intros HT Hwf HR Hown.
  assert (R ∈ filter (λ d, owned_byb (caller env) d = true) (stored m st)) as Hin.
  { apply list_elem_of_filter. split; [by apply owned_byb_spec | done]. }
  destruct (filter _ (stored m st)) as [|d rest] eqn:Hf;
    [by apply elem_of_nil in Hin|].
  assert (d ∈ d :: rest) as Hd by left. rewrite <- Hf in Hd.
  apply list_elem_of_filter in Hd as [Hd1 Hd2].
  exists d, rest. split_and!; [done | done | by apply owned_byb_spec |].
  by apply (wf_stored m st).
Qed.

(** X12.  Once a caller has created a doctor (resp. a patient) on a
    well-formed map, [getDoctorByOwner] (resp. [getPatientByOwner]) called by
    that identity answers a stored record that the caller owns. *)
Theorem X12_byOwner_after_create (P : obj) (env : Env) (st : State) :
  (wf Doctors st → valid_doctor P → name_free st P →
   ∃ R st', createDoctor P env st = Some (Ok R, st') ∧
     ∀ env', toText (caller env') = toText (caller env) →
       ∃ d, getDoctorByOwner env' st' = Some (Ok d, st') ∧
            d ∈ stored Doctors st' ∧ owned_by (caller env) d) ∧
  (wf Patients st → valid_patient P →
   ∃ R st', createPatient P env st = Some (Ok R, st') ∧
     ∀ env', toText (caller env') = toText (caller env) →
       ∃ d, getPatientByOwner env' st' = Some (Ok d, st') ∧
            d ∈ stored Patients st' ∧ owned_by (caller env) d).
Proof.
  split.
  - intros Hwf HP Hfree.
    destruct (createDoctor_valid P env st HP Hfree)
      as (R & HR & _ & Hown & _ & _ & _ & ->).
    eexists R, _. split; [done|]. intros env' Hsame.
    set (st' := <[memoryId Doctors := <[uuid env := R]> (contents Doctors st)]> st).
    assert (wf Doctors st') as Hwf' by (by apply wf_insert_same).
    assert (R ∈ stored Doctors st') as Hin.
    { apply stored_elem_of. exists (uuid env). subst st'.
      by rewrite contents_insert_eq, lookup_insert_eq. }
    assert (owned_by (caller env') R) as Hown' by (by exists (caller env)).
    destruct (byOwner_some Doctors env' st' R)
      as (d & rest & Hf & Hd & Hdo & He); [compute_done | done..|].
    exists d. split_and!; [|done|].
    + unfold getDoctorByOwner, query. rewrite run_values, run_caller.
      erewrite run_lift by (apply (owner_scan Doctors env' st'); [compute_done|done]).
      rewrite Hf. unfold ret. cbn [ResultOf]. cbn [valueType Doctors] in He.
      by rewrite He.
    + destruct Hdo as (p & Hp & Ht). exists p. split; [done | congruence].
  - intros Hwf HP.
    destruct (createPatient_valid P env st HP)
      as (R & HR & _ & Hown & _ & _ & ->).
    eexists R, _. split; [done|]. intros env' Hsame.
    set (st' := <[memoryId Patients := <[uuid env := R]> (contents Patients st)]> st).
    assert (wf Patients st') as Hwf' by (by apply wf_insert_same).
    assert (R ∈ stored Patients st') as Hin.
    { apply stored_elem_of. exists (uuid env). subst st'.
      by rewrite contents_insert_eq, lookup_insert_eq. }
    assert (owned_by (caller env') R) as Hown' by (by exists (caller env)).
    destruct (byOwner_some Patients env' st' R)
      as (d & rest & Hf & Hd & Hdo & He); [compute_done | done..|].
    exists d. split_and!; [|done|].
    + unfold getPatientByOwner, query. rewrite run_values, run_caller.
      erewrite run_lift
        by (apply (owner_scan Patients env' st'); [compute_done|done]).
      rewrite Hf. unfold ret. cbn [ResultOf]. cbn [valueType Patients] in He.
      by rewrite He.
    + destruct Hdo as (p & Hp & Ht). exists p. split; [done | congruence].
Qed.

Lemma X12_witness :
  (∃ msg, getPatientByOwner as_alice clinic = Some (Err (NotFound msg), clinic)) ∧
  ∃ R st', createPatient new_patient as_alice clinic = Some (Ok R, st') ∧
    ∃ d, getPatientByOwner as_alice st' = Some (Ok d, st') ∧
         owned_by alice d.
Proof.
  split.
  { exists "Patient profile for owner=2vxsx-fae not found". compute_done. }
  destruct (X12_byOwner_after_create new_patient as_alice clinic) as [_ Hpat].
  destruct Hpat as (R & st' & Hrun & Hget); [compute_done | |].
  { split; [text_field|]. exists 0%N. split; [compute_done | reflexivity]. }
  exists R, st'. split; [exact Hrun|].
  destruct (Hget as_alice eq_refl) as (d & Hd & _ & Hown).
  exists d. split; [exact Hd | exact Hown].
Defined.

(** ** Searches: the empty query and the case of the query *)

Lemma includes_empty s : includes s "" = true.
Proof. by destruct s. Qed.

Lemma filter_all {A} (P : A → Prop) `{∀ x, Decision (P x)} (l : list A) :
  Forall P l → filter P l = l.
Proof.
  induction 1 as [|x l Hx _ IH]; [done|].
  by rewrite filter_cons_True, IH.
Qed.

Lemma empty_query_matches {U : Unicode} m st :
  ("name", Candid.text) ∈ valueType m → wf m st →
  filter (λ d, name_containsb "" d = true) (stored m st) = stored m st.
Proof.
  intros HT Hwf. apply filter_all, Forall_forall. intros d Hd.
  pose proof (wf_stored m st d Hwf Hd) as He.
  destruct (encode_field _ d d "name" _ He HT) as (v & Hv & _ & Ht).
  unfold name_containsb. rewrite Hv. destruct v as [n| | |]; try done.
  rewrite (toLowerCase_ascii "") by done. apply includes_empty.
Qed.

(** X13.  The search with the empty query matches every record: on a
    well-formed map that is not empty, [searchDoctorByName] and
    [searchDepartmentByName] answer what [getAllDoctors] and
    [getAllDepartments] answer, all the stored records, by ascending key. *)
Theorem X13_empty_query_lists_all {U : Unicode} (env : Env) (st : State) :
  (wf Doctors st → contents Doctors st ≠ ∅ →
   searchDoctorByName "" env st = Some (Ok (stored Doctors st), st) ∧
   searchDoctorByName "" env st = getAllDoctors env st) ∧
  (wf Departments st → contents Departments st ≠ ∅ →
   searchDepartmentByName "" env st = Some (Ok (stored Departments st), st) ∧
   searchDepartmentByName "" env st = getAllDepartments env st) ∧
  in_key_order Doctors st (stored Doctors st) ∧
  in_key_order Departments st (stored Departments st).
Proof.
  split_and!; [| |apply stored_in_key_order..]; intros Hwf Hne.
  - assert (searchDoctorByName "" env st = Some (Ok (stored Doctors st), st))
      as Hs.
    { unfold searchDoctorByName, query. rewrite run_values.
      erewrite run_lift by (apply (name_scan Doctors "" st); [compute_done|done]).
      rewrite (empty_query_matches Doctors st ltac:(compute_done) Hwf).
      rewrite bool_decide_eq_false_2 by (by apply stored_nonempty).
      pose proof (stored_conforms Doctors st Hwf) as He.
      cbn [valueType Doctors] in He.
      unfold ret. cbn [ResultOf]. by rewrite He. }
    split; [exact Hs|]. rewrite Hs. symmetry.
    unfold getAllDoctors, query. rewrite run_values.
    rewrite bool_decide_eq_false_2 by (by apply stored_nonempty).
    pose proof (stored_conforms Doctors st Hwf) as He.
    cbn [valueType Doctors] in He.
    unfold ret. cbn [ResultOf]. by rewrite He.
  - assert (searchDepartmentByName "" env st
            = Some (Ok (stored Departments st), st)) as Hs.
    { unfold searchDepartmentByName, query. rewrite run_values.
      erewrite run_lift
        by (apply (name_scan Departments "" st); [compute_done|done]).
      rewrite (empty_query_matches Departments st ltac:(compute_done) Hwf).
      rewrite bool_decide_eq_false_2 by (by apply stored_nonempty).
      pose proof (stored_conforms Departments st Hwf) as He.
      cbn [valueType Departments] in He.
      unfold ret. cbn [ResultOf]. by rewrite He. }
    split; [exact Hs|]. rewrite Hs. symmetry.
    unfold getAllDepartments, query. rewrite run_values.
    rewrite bool_decide_eq_false_2 by (by apply stored_nonempty).
    pose proof (stored_conforms Departments st Hwf) as He.
    cbn [valueType Departments] in He.
    unfold ret. cbn [ResultOf]. by rewrite He.
Qed.

Lemma X13_witness :
  searchDoctorByName (U := ascii_engine) "" as_bob three_doctors
    = Some (Ok [doctor_of "Dr. One" "doc-1"; doctor_of "Dr. Two" "doc-2";
                doctor_of "Dr. Three" "doc-3"], three_doctors) ∧
  searchDoctorByName (U := ascii_engine) "" as_bob three_doctors
    = getAllDoctors as_bob three_doctors.
Proof.
  destruct (X13_empty_query_lists_all (U := ascii_engine) as_bob three_doctors)
    as (Hdoc & _).
  destruct Hdoc as [Hs Hall]; [compute_done | compute_done |].
  split; [|exact Hall]. rewrite Hs. compute_done.
Defined.

(** X14.  The searches ignore the case of the letters of an ASCII query:
    two ASCII queries that differ in the case of letters only select the
    same records, with every engine and on every state. *)
Theorem X14_search_ignores_case_of_query {U : Unicode}
    (s s' : string) (env : Env) (st : State) :
  is_ascii s = true → is_ascii s' = true → same_letters s s' →
  (∀ l, searchDoctorByName s env st = Some (Ok l, st) ↔
        searchDoctorByName s' env st = Some (Ok l, st)) ∧
  (∀ l, searchDepartmentByName s env st = Some (Ok l, st) ↔
        searchDepartmentByName s' env st = Some (Ok l, st)).
Proof.
  intros Hs Hs' Hsame.
  assert (toLowerCase s = toLowerCase s') as Hl.
  { rewrite !toLowerCase_ascii by done. by apply ascii_lower_same_letters. }
  assert (∀ d, name_matches s d = name_matches s' d) as Hm.
  { intros d. unfold name_matches. by rewrite Hl. }
  assert (∀ l : list obj,
    Array_filter (name_matches s) l = Array_filter (name_matches s') l) as Hf.
  { intros l. apply Array_filter_ext, Forall_forall. intros d _. apply Hm. }
  split; intros l.
  - unfold searchDoctorByName, query, bind, lift, Stable.values, ret.
    rewrite Hf. destruct (Array_filter _ _); [|done].
    destruct (bool_decide _); simpl; [done|]. by destruct (Vec Doctor _).
  - unfold searchDepartmentByName, query, bind, lift, Stable.values, ret.
    rewrite Hf. destruct (Array_filter _ _); [|done].
    destruct (bool_decide _); simpl; [done|]. by destruct (Vec Department _).
Qed.

Lemma X14_witness :
  same_letters "jAnE rOe" "Jane Roe" ∧
  searchDoctorByName (U := ascii_engine) "jAnE rOe" as_bob clinic
    = Some (Ok [jane], clinic) ∧
  searchDoctorByName (U := ascii_engine) "Jane Roe" as_bob clinic
    = Some (Ok [jane], clinic).
Proof.
  assert (same_letters "jAnE rOe" "Jane Roe") as Hsame.
  { simpl. repeat split;
      first [ by left
            | right; eexists; split; [|left; split; reflexivity]; vm_compute; lia
            | right; eexists; split; [|right; split; reflexivity]; vm_compute; lia ]. }
  destruct (X14_search_ignores_case_of_query (U := ascii_engine)
              "jAnE rOe" "Jane Roe" as_bob clinic) as [Hdoc _];
    [reflexivity | reflexivity | exact Hsame |].
  assert (searchDoctorByName (U := ascii_engine) "jAnE rOe" as_bob clinic
          = Some (Ok [jane], clinic)) as H by compute_done.
  split_and!; [exact Hsame | exact H | by apply Hdoc].
Defined.

(** ** Which creations check for duplicates *)

(** X15.  Once a doctor is created, no second doctor of the same name and
    department can be: whoever calls, whatever image the payload has and
    whatever id would be generated, [createDoctor] answers [InvalidPayload]
    and leaves the state of the first creation. *)
Theorem X15_second_doctor_same_name_rejected
    (P P' : obj) (img : string) (env env' : Env) (st : State) :
  valid_doctor P → name_free st P →
  P' !! "name" = P !! "name" →
  P' !! "department_id" = P !! "department_id" →
  P' !! "image" = Some (VText img) →
  ∃ R st', createDoctor P env st = Some (Ok R, st') ∧
    ∃ msg, createDoctor P' env' st' = Some (Err (InvalidPayload msg), st').
Proof.
  intros HP Hfree HN HD Himg.
  destruct (createDoctor_valid P env st HP Hfree)
    as (R & _ & _ & _ & HRn & HRd & _ & Hrun).
  destruct HP as ((n & Hn & _) & (d & Hd & _) & _).
  destruct (created_lookup Doctors R env st) as [Hc Hl].
  eexists R, _. split; [by rewrite Hrun, Hc|].
  apply (createDoctor_duplicate _ env' P' R n d img).
  - apply stored_elem_of. by exists (uuid env).
  - by rewrite HRn.
  - by rewrite HRd.
  - by rewrite HN.
  - by rewrite HD.
  - done.
Qed.

Lemma X15_witness :
  ∃ R st', createDoctor new_doctor as_alice clinic = Some (Ok R, st') ∧
    ∃ msg, createDoctor same_as_new as_bob st' = Some (Err (InvalidPayload msg), st').
Proof.
  apply (X15_second_doctor_same_name_rejected new_doctor same_as_new "other.png").
  - split_and!; text_field.
  - compute_done.
  - compute_done.
  - compute_done.
  - compute_done.
Defined.

(** X16.  Departments and patients are not checked for duplicates: the same
    valid payload, created twice under two generated ids, gives two stored
    records that differ and have the same name. *)
Theorem X16_departments_and_patients_may_repeat
    (P : obj) (env env' : Env) (st : State) :
  uuid env ≠ uuid env' →
  (valid_department P →
   ∃ R R' st' st'',
     createDepartment P env st = Some (Ok R, st') ∧
     createDepartment P env' st' = Some (Ok R', st'') ∧
     R ≠ R' ∧ R !! "name" = R' !! "name" ∧
     R ∈ stored Departments st'' ∧ R' ∈ stored Departments st'') ∧
  (valid_patient P →
   ∃ R R' st' st'',
     createPatient P env st = Some (Ok R, st') ∧
     createPatient P env' st' = Some (Ok R', st'') ∧
     R ≠ R' ∧ R !! "name" = R' !! "name" ∧
     R ∈ stored Patients st'' ∧ R' ∈ stored Patients st'').
Proof.
  intros Hid. split; intros HP.
  - destruct (createDepartment_valid P env st HP) as (R & _ & Hi & Hn & Hrun).
    set (st' := <[memoryId Departments :=
                   <[uuid env := R]> (contents Departments st)]> st).
    destruct (createDepartment_valid P env' st' HP)
      as (R' & _ & Hi' & Hn' & Hrun').
    exists R, R', st'. eexists. split_and!.
    + rewrite Hrun. reflexivity.
    + rewrite Hrun'. reflexivity.
    + intros ->. rewrite Hi in Hi'. by simplify_eq.
    + by rewrite Hn, Hn'.
    + apply stored_elem_of. exists (uuid env).
      rewrite contents_insert_eq, lookup_insert_ne by done.
      subst st'. by rewrite contents_insert_eq, lookup_insert_eq.
    + apply stored_elem_of. exists (uuid env').
      by rewrite contents_insert_eq, lookup_insert_eq.
  - destruct (createPatient_valid P env st HP)
      as (R & _ & Hi & _ & Hn & _ & Hrun).
    set (st' := <[memoryId Patients :=
                   <[uuid env := R]> (contents Patients st)]> st).
    destruct (createPatient_valid P env' st' HP)
      as (R' & _ & Hi' & _ & Hn' & _ & Hrun').
    exists R, R', st'. eexists. split_and!.
    + rewrite Hrun. reflexivity.
    + rewrite Hrun'. reflexivity.
    + intros ->. rewrite Hi in Hi'. by simplify_eq.
    + by rewrite Hn, Hn'.
    + apply stored_elem_of. exists (uuid env).
      rewrite contents_insert_eq, lookup_insert_ne by done.
      subst st'. by rewrite contents_insert_eq, lookup_insert_eq.
    + apply stored_elem_of. exists (uuid env').
      by rewrite contents_insert_eq, lookup_insert_eq.
Qed.

Lemma X16_witness :
  ∃ R R' st' st'',
    createDepartment new_department as_alice clinic = Some (Ok R, st') ∧
    createDepartment new_department as_bob st' = Some (Ok R', st'') ∧
    R ≠ R' ∧ R !! "name" = R' !! "name" ∧
    R ∈ stored Departments st'' ∧ R' ∈ stored Departments st''.
Proof.
  destruct (X16_departments_and_patients_may_repeat
              new_department as_alice as_bob clinic) as [Hdep _];
    [compute_done|].
  apply Hdep. text_field.
Defined.

(** ** Updates: read back, repeated *)

Lemma spread_twice (r p : obj) : spread (spread r p) p = spread r p.
Proof. unfold spread. by rewrite (assoc_L (∪)), (idemp_L (∪)). Qed.

Lemma insert_twice m (st : State) id (R : obj) :
  let st' := <[memoryId m := <[id := R]> (contents m st)]> st in
  <[memoryId m := <[id := R]> (contents m st')]> st' = st'.
Proof.
  intros st'. subst st'.
  by rewrite contents_insert_eq, !insert_insert_eq.
Qed.

(** X17.  An update of a stored record is read back by [getXById], adds no
    record, and is idempotent: the same update once more, by any caller,
    answers the same record and leaves the state as the first one left it. *)
Theorem X17_update_read_back_and_idempotent
    (id : string) (payload : obj) (env env' : Env) (st : State) :
  (wf Doctors st → is_Some (contents Doctors st !! id) →
   is_Some (decode CreateDoctorPayload payload) →
   ∃ R st', updateDoctor id payload env st = Some (Ok R, st') ∧
            getDoctorById id env' st' = Some (Ok R, st') ∧
            updateDoctor id payload env' st' = Some (Ok R, st') ∧
            size (contents Doctors st') = size (contents Doctors st)) ∧
  (wf Patients st → is_Some (contents Patients st !! id) →
   is_Some (decode CreatePatientPayload payload) →
   ∃ R st', updatePatient id payload env st = Some (Ok R, st') ∧
            getPatientById id env' st' = Some (Ok R, st') ∧
            updatePatient id payload env' st' = Some (Ok R, st') ∧
            size (contents Patients st') = size (contents Patients st)).
Proof.
  split; intros Hwf [r Hid] [p Hp];
    pose proof (wf_lookup _ _ _ _ Hwf Hid) as Hr; cbn [valueType] in Hr.
  - assert (encode Doctor (spread r p) = Some (spread r p)) as Hm.
    { apply (spread_conforms Doctor CreateDoctorPayload r p payload);
        [apply Doctor_NoDup | apply CreateDoctorPayload_sub | done..]. }
    set (st' := <[1 := <[id := spread r p]> (contents Doctors st)]> st).
    assert (contents Doctors st' !! id = Some (spread r p)) as Hid'.
    { subst st'. change 1 with (memoryId Doctors).
      by rewrite contents_insert_eq, lookup_insert_eq. }
    exists (spread r p), st'. split_and!.
    + by apply updateDoctor_run.
    + by apply getDoctorById_Some.
    + rewrite (updateDoctor_run id payload p (spread r p) env' st' Hid' Hm Hp).
      rewrite spread_twice. do 2 f_equal.
      apply (insert_twice Doctors st id (spread r p)).
    + subst st'. change 1 with (memoryId Doctors).
      rewrite contents_insert_eq. by eapply map_size_insert_Some.
  - assert (encode Patient (spread r p) = Some (spread r p)) as Hm.
    { apply (spread_conforms Patient CreatePatientPayload r p payload);
        [apply Patient_NoDup | apply CreatePatientPayload_sub | done..]. }
    set (st' := <[2 := <[id := spread r p]> (contents Patients st)]> st).
    assert (contents Patients st' !! id = Some (spread r p)) as Hid'.
    { subst st'. change 2 with (memoryId Patients).
      by rewrite contents_insert_eq, lookup_insert_eq. }
    exists (spread r p), st'. split_and!.
    + by apply updatePatient_run.
    + by apply getPatientById_Some.
    + rewrite (updatePatient_run id payload p (spread r p) env' st' Hid' Hm Hp).
      rewrite spread_twice. do 2 f_equal.
      apply (insert_twice Patients st id (spread r p)).
    + subst st'. change 2 with (memoryId Patients).
      rewrite contents_insert_eq. by eapply map_size_insert_Some.
Qed.

Lemma X17_witness :
  ∃ R st', updatePatient "pat-1" ann_at_40 as_alice clinic = Some (Ok R, st') ∧
           getPatientById "pat-1" as_bob st' = Some (Ok R, st') ∧
           updatePatient "pat-1" ann_at_40 as_bob st' = Some (Ok R, st') ∧
           size (contents Patients st') = size (contents Patients clinic).
Proof.
  destruct (X17_update_read_back_and_idempotent
              "pat-1" ann_at_40 as_alice as_bob clinic) as [_ Hpat].
  apply Hpat; compute_done.
Defined.
